(** * Inventory count API: draft accumulation and commit reconciliation

    A shallow embedding of [src/index.js], the Express/PostgreSQL back end
    that lets warehouse staff scan items into a draft table
    ([inventory_counts]), review and edit the drafts, and commit a
    location's drafts onto the authoritative [stock_levels] table.

    The tables are lists of rows, in storage order, so that duplicate rows
    stay expressible.  Each SQL statement of the source is a function on the
    database value; the handlers are written in a small state-and-error monad
    whose steps are the awaited calls of the source, any of which may throw.
    A transaction works on a private copy of the database that replaces the
    durable one on COMMIT only.

    Request fields are taken at the type of the column they are compared with
    or stored in: identifiers, quantities and timestamps are integers,
    locations and barcodes are strings.  Login, the token check in front of
    every route and [GET /locations] are not part of the development. *)

From Stdlib Require Import ZArith List String Bool Lia Arith.
From Stdlib Require Import Ascii Sorted Permutation.
Import ListNotations.

Local Open Scope string_scope.
Local Open Scope Z_scope.

Set Implicit Arguments.

(* ================================================================== *)
(** ** Tables *)

(** A row of [products] as the handlers read it:
    [SELECT product_id, name, sku FROM products]. *)
Record product := mkProduct {
  product_id : Z;
  name : string;
  sku : string
}.

(** A row of [inventory_counts].  The INSERT of the scan handler names
    [product_id, location, quantity, user_id, status]; [id] and [scanned_at]
    are filled in by the column defaults. *)
Record inventory_count := mkCount {
  id : Z;
  ic_product_id : Z;
  location : string;
  quantity : Z;
  user_id : Z;
  status : string;
  scanned_at : Z
}.

(** A row of [stock_levels]. *)
Record stock_level := mkStock {
  sl_product_id : Z;
  sl_location : string;
  on_hand : Z;
  available : Z
}.

(** The database the handlers share.  [locations] holds the names of the
    location directory; only [GET /locations] reads it.  [id_seq] is the next
    value of the [inventory_counts.id] default. *)
Record database := mkDb {
  locations : list string;
  products : list product;
  inventory_counts : list inventory_count;
  stock_levels : list stock_level;
  id_seq : Z
}.

Definition with_counts (d : database) (l : list inventory_count) : database :=
  {| locations := locations d; products := products d; inventory_counts := l;
     stock_levels := stock_levels d; id_seq := id_seq d |}.

Definition with_stock (d : database) (l : list stock_level) : database :=
  {| locations := locations d; products := products d;
     inventory_counts := inventory_counts d;
     stock_levels := l; id_seq := id_seq d |}.

Definition set_quantity (q : Z) (r : inventory_count) : inventory_count :=
  {| id := id r; ic_product_id := ic_product_id r; location := location r;
     quantity := q; user_id := user_id r; status := status r;
     scanned_at := scanned_at r |}.

Definition set_levels (q : Z) (r : stock_level) : stock_level :=
  {| sl_product_id := sl_product_id r; sl_location := sl_location r;
     on_hand := q; available := q |}.

(* ================================================================== *)
(** ** WHERE clauses *)

(** [status = 'DRAFT'] *)
Definition is_draft (r : inventory_count) : bool :=
  String.eqb (status r) "DRAFT".

(** [product_id = $1 AND location = $2 AND status = 'DRAFT'] *)
Definition draft_of (pid : Z) (loc : string) (r : inventory_count) : bool :=
  (ic_product_id r =? pid) && String.eqb (location r) loc && is_draft r.

(** [location = $1 AND status = 'DRAFT'] *)
Definition draft_at (loc : string) (r : inventory_count) : bool :=
  String.eqb (location r) loc && is_draft r.

(** [product_id = $2 AND location = $3] on [stock_levels] *)
Definition stock_of (pid : Z) (loc : string) (r : stock_level) : bool :=
  (sl_product_id r =? pid) && String.eqb (sl_location r) loc.

(* ================================================================== *)
(** ** SQL statements

    Every statement maps a database to its result and the database after
    it.  An UPDATE returns its [rowCount]. *)

Definition statement (A : Type) := database -> A * database.

(** [SELECT product_id, name, sku FROM products WHERE sku = $1] *)
Definition select_product_by_sku (barcode : string) : statement (list product) :=
  fun d => (filter (fun p => String.eqb (sku p) barcode) (products d), d).

(** [SELECT id FROM inventory_counts
     WHERE product_id = $1 AND location = $2 AND status = 'DRAFT'] *)
Definition select_draft_ids (pid : Z) (loc : string) : statement (list Z) :=
  fun d => (map id (filter (draft_of pid loc) (inventory_counts d)), d).

(** [UPDATE inventory_counts SET quantity = quantity + 1 WHERE id = $1] *)
Definition increment_quantity (i : Z) : statement nat :=
  fun d =>
    (List.length (filter (fun r => id r =? i) (inventory_counts d)),
     with_counts d
       (map (fun r => if id r =? i then set_quantity (quantity r + 1) r else r)
            (inventory_counts d))).

(** Modelled from the spec: the definition of table [inventory_counts] is not
    part of the source, and the INSERT below leaves [id] and [scanned_at] to
    the column defaults.  The spec has [id] an identifier "assigned on
    creation" and [scanned_at] the "timestamp of creation": the new row takes
    the next value of [id_seq] and the time [now] of the request. *)
Definition column_defaults (d : database) (now : Z) : Z * Z :=
  (id_seq d, now).

(** [INSERT INTO inventory_counts (product_id, location, quantity, user_id,
     status) VALUES ($1, $2, 1, $3, 'DRAFT')] *)
Definition insert_draft (pid : Z) (loc : string) (uid : Z) (now : Z)
  : statement unit :=
  fun d =>
    (tt,
     {| locations := locations d;
        products := products d;
        inventory_counts :=
          inventory_counts d ++
          [ {| id := fst (column_defaults d now);
               ic_product_id := pid; location := loc;
               quantity := 1; user_id := uid; status := "DRAFT";
               scanned_at := snd (column_defaults d now) |} ];
        stock_levels := stock_levels d;
        id_seq := id_seq d + 1 |}).

(** [DELETE FROM inventory_counts WHERE id = $1] *)
Definition delete_count (i : Z) : statement nat :=
  fun d =>
    (List.length (filter (fun r => id r =? i) (inventory_counts d)),
     with_counts d (filter (fun r => negb (id r =? i)) (inventory_counts d))).

(** [UPDATE inventory_counts SET quantity = $1 WHERE id = $2] *)
Definition update_quantity (q : Z) (i : Z) : statement nat :=
  fun d =>
    (List.length (filter (fun r => id r =? i) (inventory_counts d)),
     with_counts d
       (map (fun r => if id r =? i then set_quantity q r else r)
            (inventory_counts d))).

(** [SELECT product_id, quantity FROM inventory_counts
     WHERE location = $1 AND status = 'DRAFT'] *)
Definition select_drafts (loc : string) : statement (list (Z * Z)) :=
  fun d =>
    (map (fun r => (ic_product_id r, quantity r))
         (filter (draft_at loc) (inventory_counts d)), d).

(** [UPDATE stock_levels SET on_hand = $1, available = $1
     WHERE product_id = $2 AND location = $3] *)
Definition update_stock (q : Z) (pid : Z) (loc : string) : statement nat :=
  fun d =>
    (List.length (filter (stock_of pid loc) (stock_levels d)),
     with_stock d
       (map (fun r => if stock_of pid loc r then set_levels q r else r)
            (stock_levels d))).

(** [INSERT INTO stock_levels (product_id, location, on_hand, available)
     VALUES ($1, $2, $3, $3)] *)
Definition insert_stock (pid : Z) (loc : string) (q : Z) : statement unit :=
  fun d =>
    (tt,
     with_stock d
       (stock_levels d ++
        [ {| sl_product_id := pid; sl_location := loc;
             on_hand := q; available := q |} ])).

(** [DELETE FROM inventory_counts WHERE location = $1 AND status = 'DRAFT'] *)
Definition delete_drafts (loc : string) : statement nat :=
  fun d =>
    (List.length (filter (draft_at loc) (inventory_counts d)),
     with_counts d (filter (fun r => negb (draft_at loc r)) (inventory_counts d))).

(** *** The review query *)

(** A row of the review result: [ic.id, ic.quantity, p.name, p.sku]. *)
Record review_row := mkReview {
  rv_id : Z;
  rv_quantity : Z;
  rv_name : string;
  rv_sku : string
}.

(** [ORDER BY ic.scanned_at DESC], as an insertion sort; among rows with
    equal timestamps, which SQL leaves in any order, the one stored later
    comes first. *)
Fixpoint insert_desc (x : inventory_count * product)
  (l : list (inventory_count * product)) : list (inventory_count * product) :=
  match l with
  | [] => [x]
  | y :: l' =>
      if scanned_at (fst y) <? scanned_at (fst x)
      then x :: y :: l'
      else y :: insert_desc x l'
  end.

Definition order_by_scanned_at_desc (l : list (inventory_count * product))
  : list (inventory_count * product) :=
  fold_right insert_desc [] l.

(** [FROM inventory_counts ic JOIN products p ON ic.product_id = p.product_id] *)
Definition join_products (ps : list product) (cs : list inventory_count)
  : list (inventory_count * product) :=
  flat_map
    (fun c => map (fun p => (c, p))
                  (filter (fun p => ic_product_id c =? product_id p) ps))
    cs.

(** [SELECT ic.id, ic.quantity, p.name, p.sku FROM inventory_counts ic
     JOIN products p ON ic.product_id = p.product_id
     WHERE ic.location = $1 AND ic.status = 'DRAFT'
     ORDER BY ic.scanned_at DESC] *)
Definition select_review (loc : string) : statement (list review_row) :=
  fun d =>
    (map (fun cp => {| rv_id := id (fst cp); rv_quantity := quantity (fst cp);
                       rv_name := name (snd cp); rv_sku := sku (snd cp) |})
         (order_by_scanned_at_desc
            (join_products (products d)
               (filter (draft_at loc) (inventory_counts d)))),
     d).

(* ================================================================== *)
(** ** The handler monad

    A handler runs against a [world]: the durable database, the private copy
    of an open transaction if there is one, and the number of awaited calls
    issued so far.  [fails k] says whether the [k]-th awaited call of the
    request rejects; this stands for any storage error. *)

Record world := mkWorld {
  store : database;
  txn : option database;
  issued : nat
}.

Inductive outcome (A : Type) :=
| Returned (a : A)
| Thrown.
Arguments Thrown {A}.

Definition M (A : Type) := world -> outcome A * world.

Definition ret {A} (a : A) : M A := fun w => (Returned a, w).

Definition bind {A B} (m : M A) (k : A -> M B) : M B :=
  fun w =>
    match m w with
    | (Returned a, w') => k a w'
    | (Thrown, w') => (Thrown, w')
    end.

Notation "x <- m ;; k" := (bind m (fun x => k))
  (at level 61, m at next level, right associativity).
Notation "m ;; k" := (bind m (fun _ => k))
  (at level 61, right associativity).

(** [try { body } catch (err) { handler }] *)
Definition try_catch {A} (body handler : M A) : M A :=
  fun w =>
    match body w with
    | (Returned a, w') => (Returned a, w')
    | (Thrown, w') => handler w'
    end.

Definition tick (w : world) : world :=
  {| store := store w; txn := txn w; issued := S (issued w) |}.

(** [await pool.query(...)] and [await client.query(...)]: a statement runs
    on the transaction's copy when one is open and on the durable database
    otherwise (autocommit). *)
Definition query {A} (fails : nat -> bool) (stmt : statement A) : M A :=
  fun w =>
    if fails (issued w) then (Thrown, tick w)
    else
      match txn w with
      | Some t =>
          let (a, t') := stmt t in
          (Returned a, {| store := store w; txn := Some t'; issued := S (issued w) |})
      | None =>
          let (a, d') := stmt (store w) in
          (Returned a, {| store := d'; txn := None; issued := S (issued w) |})
      end.

(** [await pool.connect()] *)
Definition connect (fails : nat -> bool) : M unit :=
  fun w => if fails (issued w) then (Thrown, tick w) else (Returned tt, tick w).

(** [await client.query('BEGIN')] *)
Definition begin_txn (fails : nat -> bool) : M unit :=
  fun w =>
    if fails (issued w) then (Thrown, tick w)
    else (Returned tt,
          {| store := store w;
             txn := Some (match txn w with Some t => t | None => store w end);
             issued := S (issued w) |}).

(** [await client.query('COMMIT')] *)
Definition commit_txn (fails : nat -> bool) : M unit :=
  fun w =>
    if fails (issued w) then (Thrown, tick w)
    else (Returned tt,
          {| store := match txn w with Some t => t | None => store w end;
             txn := None;
             issued := S (issued w) |}).

(** [await client.query('ROLLBACK')] *)
Definition rollback_txn (fails : nat -> bool) : M unit :=
  fun w =>
    if fails (issued w) then (Thrown, tick w)
    else (Returned tt,
          {| store := store w; txn := None; issued := S (issued w) |}).

(** [for (const item of rows) { ... }] *)
Fixpoint for_of {A} (rows : list A) (body : A -> M unit) : M unit :=
  match rows with
  | [] => ret tt
  | item :: rest => body item ;; for_of rest body
  end.

(* ================================================================== *)
(** ** Responses *)

Inductive response :=
| ScanOk (p : product)               (* { success: true, product } *)
| ReviewOk (rows : list review_row)  (* result.rows *)
| UpdateOk                           (* { success: true } *)
| CommitOk (count : nat)             (* { success: true, count } *)
| Status404 (message : string)       (* status 404, { success: false, message } *)
| Status500 (error : string)         (* status 500, { error } *)
| NoResponse.                        (* the handler's promise rejected *)

(* ================================================================== *)
(** ** Handlers *)

(** [POST /inventory/scan] *)
Definition scan (fails : nat -> bool) (now : Z)
  (barcode loc : string) (uid : Z) : M response :=
  try_catch
    (productRes <- query fails (select_product_by_sku barcode) ;;
     match productRes with
     | [] => ret (Status404 "Product not found")
     | p :: _ =>
         checkRes <- query fails (select_draft_ids (product_id p) loc) ;;
         match checkRes with
         | i :: _ => query fails (increment_quantity i) ;; ret tt
         | [] => query fails (insert_draft (product_id p) loc uid now)
         end ;;
         ret (ScanOk p)
     end)
    (ret (Status500 "Scan failed")).

(** [GET /inventory/review] *)
Definition review (fails : nat -> bool) (loc : string) : M response :=
  try_catch
    (rows <- query fails (select_review loc) ;;
     ret (ReviewOk rows))
    (ret (Status500 "Fetch failed")).

(** [POST /inventory/update].  The body's [quantity] is an integer here; a
    request that omits it, for which [quantity <= 0] is false as well, is not
    among the requests of this development. *)
Definition update (fails : nat -> bool) (i : Z) (q : Z) : M response :=
  try_catch
    ((if q <=? 0
      then query fails (delete_count i)
      else query fails (update_quantity q i)) ;;
     ret UpdateOk)
    (ret (Status500 "Update failed")).

(** The body of the commit loop: update the stock row, insert it when the
    update matched no row. *)
Definition upsert (fails : nat -> bool) (loc : string) (item : Z * Z) : M unit :=
  rowCount <- query fails (update_stock (snd item) (fst item) loc) ;;
  if Nat.eqb rowCount 0
  then query fails (insert_stock (fst item) loc (snd item))
  else ret tt.

(** [POST /inventory/commit] *)
Definition commit (fails : nat -> bool) (loc : string) : M response :=
  connect fails ;;
  try_catch
    (begin_txn fails ;;
     drafts <- query fails (select_drafts loc) ;;
     for_of drafts (upsert fails loc) ;;
     query fails (delete_drafts loc) ;;
     commit_txn fails ;;
     ret (CommitOk (List.length drafts)))
    (rollback_txn fails ;;
     ret (Status500 "Commit failed")).

(** A request, and what serving it on a fresh connection leaves behind for
    the requests that follow: the response sent and the durable database.  A
    transaction still open on the connection when [client.release()] hands it
    back is seen by no other connection and is not part of the result. *)
Inductive request :=
| Scan (barcode loc : string) (uid : Z)
| Review (loc : string)
| Update (i : Z) (q : Z)
| Commit (loc : string).

Definition handler (fails : nat -> bool) (now : Z) (r : request) : M response :=
  match r with
  | Scan barcode loc uid => scan fails now barcode loc uid
  | Review loc => review fails loc
  | Update i q => update fails i q
  | Commit loc => commit fails loc
  end.

Definition serve (fails : nat -> bool) (now : Z) (r : request) (d : database)
  : response * database :=
  match handler fails now r {| store := d; txn := None; issued := 0 |} with
  | (Returned resp, w) => (resp, store w)
  | (Thrown, w) => (NoResponse, store w)
  end.

(** A run of requests served one after the other, each with its own storage
    behaviour and clock reading. *)
Record call := mkCall {
  call_fails : nat -> bool;
  call_now : Z;
  call_request : request
}.

Definition serve_all (cs : list call) (d : database) : database :=
  fold_left (fun d c => snd (serve (call_fails c) (call_now c) (call_request c) d))
            cs d.

(** No storage error. *)
Definition healthy : nat -> bool := fun _ => false.

Definition fresh (d : database) : world :=
  {| store := d; txn := None; issued := 0 |}.

(* ================================================================== *)
(** ** What a commit amounts to

    The handlers above are the model.  The functions below summarise a commit
    whose every step succeeds; [commit_run] proves that the handler computes
    exactly this, and nothing at all when a step fails. *)

(** One pass of the loop body on the transaction's copy. *)
Definition apply_upsert (loc : string) (t : database) (item : Z * Z) : database :=
  let (rowCount, t1) := update_stock (snd item) (fst item) loc t in
  if Nat.eqb rowCount 0
  then snd (insert_stock (fst item) loc (snd item) t1)
  else t1.

(** The statements one pass issues: the UPDATE, and the INSERT when the
    UPDATE matched nothing. *)
Definition upsert_steps (loc : string) (t : database) (item : Z * Z) : nat :=
  if Nat.eqb (fst (update_stock (snd item) (fst item) loc t)) 0 then 2 else 1.

Fixpoint loop_steps (loc : string) (items : list (Z * Z)) (t : database) : nat :=
  match items with
  | [] => 0
  | item :: rest =>
      (upsert_steps loc t item + loop_steps loc rest (apply_upsert loc t item))%nat
  end.

(** Every draft of [loc] upserted in storage order, then the drafts deleted. *)
Definition promote (loc : string) (d : database) : database :=
  snd (delete_drafts loc
         (fold_left (apply_upsert loc) (fst (select_drafts loc d)) d)).

(** Awaited calls of a commit that runs to its response: connect, BEGIN,
    SELECT, the loop, DELETE, COMMIT. *)
Definition commit_steps (loc : string) (d : database) : nat :=
  (3 + loop_steps loc (fst (select_drafts loc d)) d + 2)%nat.

(** The database a request leaves when none of its steps fails. *)
Definition effect (now : Z) (r : request) (d : database) : database :=
  match r with
  | Scan barcode loc uid =>
      match fst (select_product_by_sku barcode d) with
      | [] => d
      | p :: _ =>
          match fst (select_draft_ids (product_id p) loc d) with
          | i :: _ => snd (increment_quantity i d)
          | [] => snd (insert_draft (product_id p) loc uid now d)
          end
      end
  | Review _ => d
  | Update i q =>
      if q <=? 0 then snd (delete_count i d) else snd (update_quantity q i d)
  | Commit loc => promote loc d
  end.

(* ================================================================== *)
(** ** The two uniqueness invariants *)

Section Keys.
Variable A : Type.
(** [sel p loc] is the WHERE clause that picks the rows of a pair and
    [keyof] the pair a row counts for, if any. *)
Variable sel : Z -> string -> A -> bool.
Variable keyof : A -> option (Z * string).

Fixpoint distinct (l : list A) : bool :=
  match l with
  | [] => true
  | r :: l' =>
      match keyof r with
      | Some (p, loc) => negb (existsb (sel p loc) l')
      | None => true
      end && distinct l'
  end.
End Keys.

Definition draft_key (r : inventory_count) : option (Z * string) :=
  if is_draft r then Some (ic_product_id r, location r) else None.

Definition stock_key (r : stock_level) : option (Z * string) :=
  Some (sl_product_id r, sl_location r).

(** At most one DRAFT row per (product_id, location). *)
Definition draft_unique (d : database) : Prop :=
  distinct draft_of draft_key (inventory_counts d) = true.

(** At most one stock row per (product_id, location). *)
Definition stock_unique (d : database) : Prop :=
  distinct stock_of stock_key (stock_levels d) = true.

(* ================================================================== *)
(** ** Storage behaviour over a window of steps *)

(** None of the [n] steps from the [a]-th on fails. *)
Definition clean (fails : nat -> bool) (a n : nat) : Prop :=
  forall k, (a <= k < a + n)%nat -> fails k = false.

(** One of the [n] steps from the [a]-th on fails. *)
Definition faulty (fails : nat -> bool) (a n : nat) : Prop :=
  exists k, (a <= k < a + n)%nat /\ fails k = true.

(** World [w'] is where one of the [n] steps from the [a]-th on threw: that
    step was the last one issued. *)
Definition threw_at (fails : nat -> bool) (a n : nat) (w' : world) : Prop :=
  exists k, (a <= k < a + n)%nat /\ fails k = true /\ issued w' = S k.

(** What running [n] steps inside an open transaction can give: they all ran
    and turned the transaction's copy into [t'], or one of them threw; the
    durable database is the same either way. *)
Definition in_txn {A} (fails : nat -> bool) (w : world) (n : nat)
  (t' : database) (r : outcome A * world) : Prop :=
  match r with
  | (Returned _, w') =>
      store w' = store w /\ txn w' = Some t' /\
      issued w' = (issued w + n)%nat /\ clean fails (issued w) n
  | (Thrown, w') =>
      store w' = store w /\ threw_at fails (issued w) n w'
  end.

(** The ROLLBACK of the catch block failed as well, or there was no
    connection to begin with: the only ways for the commit handler to leave
    without a response. *)
Definition unanswered (fails : nat -> bool) : Prop :=
  fails 0%nat = true \/ exists k, fails k = true /\ fails (S k) = true.

(** What the commit handler can give on database [d]: the count and
    [promote loc d] when all its steps ran, a failure and [d] itself when one
    of them threw.  When it sends a response the transaction is closed, by
    COMMIT or by ROLLBACK. *)
Definition commit_post (fails : nat -> bool) (loc : string) (d : database)
  (r : outcome response * world) : Prop :=
  match r with
  | (Returned (CommitOk c), w') =>
      c = List.length (fst (select_drafts loc d)) /\
      store w' = promote loc d /\
      clean fails 0 (commit_steps loc d) /\
      txn w' = None
  | (Returned (Status500 e), w') =>
      e = "Commit failed" /\ store w' = d /\
      faulty fails 0 (commit_steps loc d) /\
      txn w' = None
  | (Returned _, _) => False
  | (Thrown, w') =>
      store w' = d /\ faulty fails 0 (commit_steps loc d) /\ unanswered fails
  end.

(** The number of stock rows of a (product, location) pair. *)
Definition pair_count (p : Z) (loc : string) (d : database) : nat :=
  List.length (filter (stock_of p loc) (stock_levels d)).

(** How the number of rows of a pair can move: not at all, or from none to
    one. *)
Definition grows_once (n n' : nat) : Prop := n' = n \/ (n = 0 /\ n' = 1)%nat.

(** [UPDATE ... SET quantity = quantity + 1 WHERE id = $1] on one row. *)
Definition bump (i : Z) (r : inventory_count) : inventory_count :=
  if id r =? i then set_quantity (quantity r + 1) r else r.

(** Scans of one barcode at one location served in a row, none failing, each
    with its own clock reading and user. *)
Definition scans_of (barcode loc : string) (scans : list (Z * Z)) : list call :=
  map (fun nu => mkCall healthy (fst nu) (Scan barcode loc (snd nu))) scans.

(* ================================================================== *)
(** ** Around the core: configuration, tokens, login, the location list

    The JSON web token library and the collation the database sorts names
    by are not part of the source; they are parameters of what follows. *)

(** [process.env.NAME || fallback] for a string variable: unset or empty
    gives the fallback. *)
Definition env_or (v : option string) (fallback : string) : string :=
  match v with
  | Some s => if String.eqb s "" then fallback else s
  | None => fallback
  end.

(** [const JWT_SECRET = process.env.JWT_SECRET || "default_secret"] *)
Definition JWT_SECRET (env : option string) : string :=
  env_or env "default_secret".

(** The payload the login route signs: [{ id: user.user_id, username }]. *)
Record token_claims := mkClaims {
  claim_id : Z;
  claim_username : string
}.

(** The two calls into [jsonwebtoken]: [jwt.sign(payload, secret)], and
    [jwt.verify(token, secret, callback)] as the decoded payload it hands to
    the callback, or [None] for an error. *)
Record jwt_library := mkJwt {
  jwt_sign : token_claims -> string -> string;
  jwt_verify : string -> string -> option token_claims
}.

Definition space : ascii := " "%char.

(** [s.split(' ')]: the pieces of [s] between spaces, empty pieces
    included; never the empty list. *)
Fixpoint split (sep : ascii) (s : string) : list string :=
  match s with
  | EmptyString => [EmptyString]
  | String c s' =>
      if Ascii.eqb c sep then EmptyString :: split sep s'
      else
        match split sep s' with
        | [] => [String c EmptyString]
        | piece :: pieces => String c piece :: pieces
        end
  end.

(** [authHeader && authHeader.split(' ')[1]]: an absent header stays absent,
    an empty header is its own (empty) token, any other header gives its
    second piece, if it has one. *)
Definition header_token (authHeader : option string) : option string :=
  match authHeader with
  | None => None
  | Some h => if String.eqb h "" then Some h else nth_error (split space h) 1
  end.

Inductive auth_outcome :=
| SendStatus401
| SendStatus403
| Next (user : token_claims).     (* req.user = user; next() *)

(** The middleware [authenticateToken]. *)
Definition authenticateToken (jwt : jwt_library) (secret : string)
  (authHeader : option string) : auth_outcome :=
  match header_token authHeader with
  | None => SendStatus401
  | Some token =>
      match jwt_verify jwt token secret with
      | None => SendStatus403
      | Some user => Next user
      end
  end.

(** A route registered as [app.post(path, authenticateToken, handler)]: the
    handler runs only when the middleware calls [next()]. *)
Inductive guarded (A : Type) :=
| Refused401
| Refused403
| Answered (user : token_claims) (a : A).
Arguments Refused401 {A}.
Arguments Refused403 {A}.

Definition route {A} (jwt : jwt_library) (secret : string)
  (authHeader : option string) (run : database -> A * database)
  (d : database) : guarded A * database :=
  match authenticateToken jwt secret authHeader with
  | SendStatus401 => (Refused401, d)
  | SendStatus403 => (Refused403, d)
  | Next user => let (a, d') := run d in (Answered user a, d')
  end.

(** A row of [users], and what the login query selects of it. *)
Record user_row := mkUser {
  u_user_id : Z;
  u_full_name : string;
  u_role : string;
  u_username : string;
  u_password : string
}.

Record user_info := mkInfo {
  info_user_id : Z;
  info_full_name : string;
  info_role : string
}.

(** [SELECT user_id, full_name, role FROM users
     WHERE username = $1 AND password = $2].  No route writes [users]; the
    table is passed beside the database the other routes share. *)
Definition select_user (users : list user_row) (username password : string)
  : statement (list user_info) :=
  fun d =>
    (map (fun u => {| info_user_id := u_user_id u;
                      info_full_name := u_full_name u;
                      info_role := u_role u |})
         (filter (fun u => String.eqb (u_username u) username &&
                           String.eqb (u_password u) password)
                 users),
     d).

Inductive login_response :=
| LoginOk (user : user_info) (token : string)  (* { success: true, user, token } *)
| Login401 (message : string)                  (* status 401, { success: false, message } *)
| Login500 (error : string).                   (* status 500, { error } *)

(** [POST /login] *)
Definition login (jwt : jwt_library) (secret : string) (fails : nat -> bool)
  (users : list user_row) (username password : string) : M login_response :=
  try_catch
    (result <- query fails (select_user users username password) ;;
     match result with
     | user :: _ =>
         ret (LoginOk user
                (jwt_sign jwt {| claim_id := info_user_id user;
                                 claim_username := username |} secret))
     | [] => ret (Login401 "Invalid credentials")
     end)
    (ret (Login500 "Login error")).

(** [ORDER BY name ASC], as an insertion sort by the database's collation
    [collate] (its "less than or equal"). *)
Fixpoint insert_asc (collate : string -> string -> bool) (x : string)
  (l : list string) : list string :=
  match l with
  | [] => [x]
  | y :: l' =>
      if collate x y then x :: y :: l' else y :: insert_asc collate x l'
  end.

(** [SELECT name FROM locations ORDER BY name ASC] *)
Definition select_locations (collate : string -> string -> bool)
  : statement (list string) :=
  fun d => (fold_right (insert_asc collate) [] (locations d), d).

Inductive locations_response :=
| LocationsOk (names : list string)   (* result.rows.map(r => r.name) *)
| Locations500 (error : string).      (* status 500, { error } *)

(** [GET /locations] *)
Definition get_locations (collate : string -> string -> bool)
  (fails : nat -> bool) : M locations_response :=
  try_catch
    (result <- query fails (select_locations collate) ;;
     ret (LocationsOk result))
    (ret (Locations500 "Fetch error")).

(** A handler run on a fresh connection: its response, if it sent one, and
    the durable database. *)
Definition answer {A} (m : M A) (d : database) : option A * database :=
  match m (fresh d) with
  | (Returned a, w) => (Some a, store w)
  | (Thrown, w) => (None, store w)
  end.

(** Rows in review order: latest scan first. *)
Definition newer_first (a b : inventory_count * product) : Prop :=
  scanned_at (fst b) <= scanned_at (fst a).

(** Names in the order of the collation. *)
Definition ascending (collate : string -> string -> bool) (a b : string) : Prop :=
  collate a b = true.

(** The WHERE clause of the login query. *)
Definition credentials_match (username password : string) (u : user_row) : bool :=
  String.eqb (u_username u) username && String.eqb (u_password u) password.

(** The responses that report success. *)
Definition is_success (r : response) : bool :=
  match r with
  | ScanOk _ | ReviewOk _ | UpdateOk | CommitOk _ => true
  | _ => false
  end.

(** No character of [s] is a space. *)
Fixpoint spaceless (s : string) : bool :=
  match s with
  | EmptyString => true
  | String c s' => negb (Ascii.eqb c space) && spaceless s'
  end.

(** A toy token library for the examples: the token of a payload is the
    secret, a dot and the user name; verification accepts exactly the token
    of user 7, "ann" under the given secret. *)
Definition toy_jwt : jwt_library :=
  {| jwt_sign := fun c secret => secret ++ "." ++ claim_username c;
     jwt_verify := fun token secret =>
       if String.eqb token (secret ++ ".ann")
       then Some {| claim_id := 7; claim_username := "ann" |}
       else None |}.

(** A directory stored out of order. *)
Definition yard_db : database :=
  {| locations := ["Dock"; "Aisle 2"; "Yard"; "Aisle 1"];
     products := []; inventory_counts := []; stock_levels := [];
     id_seq := 1 |}.

Definition staff : list user_row :=
  [ mkUser 7 "Ann Lee" "counter" "ann" "s3cret";
    mkUser 8 "Bo Diaz" "reviewer" "bo" "hunter2" ].

(* ================================================================== *)
(** ** Sample data *)

(** A warehouse with two products, two drafts counted at the dock and one in
    an aisle, and one stock row. *)
Definition dock_db : database :=
  {| locations := ["Aisle 1"; "Dock"];
     products := [ mkProduct 1 "Widget" "A1"; mkProduct 2 "Gadget" "B2" ];
     inventory_counts :=
       [ mkCount 1 1 "Dock" 5 7 "DRAFT" 100;
         mkCount 2 2 "Dock" 3 7 "DRAFT" 101;
         mkCount 3 1 "Aisle 1" 4 8 "DRAFT" 102 ];
     stock_levels := [ mkStock 1 "Dock" 10 10 ];
     id_seq := 4 |}.

(** The same warehouse before anything was counted. *)
Definition empty_db : database :=
  {| locations := ["Aisle 1"; "Dock"];
     products := [ mkProduct 1 "Widget" "A1"; mkProduct 2 "Gadget" "B2" ];
     inventory_counts := [];
     stock_levels := [ mkStock 1 "Dock" 10 10 ];
     id_seq := 1 |}.

(** Storage that fails at the [k]-th step and nowhere else. *)
Definition fails_at (k : nat) : nat -> bool := fun n => Nat.eqb n k.

(** Storage lost in mid-transaction: the sixth awaited call of a request
    fails, and so does the one after it. *)
Definition lost_at_insert : nat -> bool :=
  fun n => Nat.eqb n 5 || Nat.eqb n 6.

(** A counting session at the dock: one more scan, a correction, a commit
    that fails at its sixth step, the same commit again, then a fresh scan
    and a last commit. *)
Definition dock_session : list call :=
  [ mkCall healthy 200 (Scan "B2" "Dock" 7);
    mkCall healthy 201 (Update 1 6);
    mkCall (fails_at 5) 202 (Commit "Dock");
    mkCall healthy 203 (Commit "Dock");
    mkCall healthy 204 (Scan "A1" "Dock" 8);
    mkCall healthy 205 (Commit "Dock") ].

(* ================================================================== *)
(** * Proofs *)

(** ** Lists *)

Lemma filter_nil_existsb A (f : A -> bool) (l : list A) :
  filter f l = [] <-> existsb f l = false.
Proof.
  induction l as [|x l IH]; simpl; [tauto|].
  destruct (f x); simpl; [split; discriminate | exact IH].
Qed.

Lemma filter_none A (f : A -> bool) (l : list A) :
  filter f l = [] -> filter (fun x => negb (f x)) l = l.
Proof.
  induction l as [|x l IH]; simpl; [reflexivity|].
  destruct (f x); simpl; [discriminate | intros H; now rewrite IH].
Qed.

Lemma filter_filter_negb A (f : A -> bool) (l : list A) :
  filter f (filter (fun x => negb (f x)) l) = [].
Proof.
  induction l as [|x l IH]; simpl; [reflexivity|].
  destruct (f x) eqn:E; simpl; [exact IH | now rewrite E].
Qed.

(** A map that fixes the filter's verdict commutes with the filter. *)
Lemma filter_map_stable A (f : A -> bool) (g : A -> A) (l : list A) :
  (forall x, f (g x) = f x) ->
  filter f (map g l) = map g (filter f l).
Proof.
  intros Hg. induction l as [|x l IH]; simpl; [reflexivity|].
  rewrite Hg. destruct (f x); simpl; now rewrite IH.
Qed.

(** A map that moves only rows the filter rejects, before and after, is
    invisible through the filter. *)
Lemma filter_map_untouched A (f : A -> bool) (g : A -> A) (l : list A) :
  (forall x, f (g x) = f x) ->
  (forall x, f x = true -> g x = x) ->
  filter f (map g l) = filter f l.
Proof.
  intros Hg Hfix. rewrite filter_map_stable by exact Hg.
  induction l as [|x l IH]; simpl; [reflexivity|].
  destruct (f x) eqn:E; simpl; [now rewrite Hfix, IH | exact IH].
Qed.

Lemma map_id_when A (c : A -> bool) (g : A -> A) (l : list A) :
  filter c l = [] ->
  map (fun x => if c x then g x else x) l = l.
Proof.
  induction l as [|x l IH]; simpl; [reflexivity|].
  destruct (c x); [discriminate | intros H; now rewrite IH].
Qed.

Lemma length_filter_filter A (f g : A -> bool) (l : list A) :
  (List.length (filter f (filter g l)) <= List.length (filter f l))%nat.
Proof.
  induction l as [|x l IH]; simpl; [lia|].
  destruct (g x); simpl; destruct (f x); simpl; lia.
Qed.

(** ** Uniqueness as a count *)

Section KeysFacts.
Variable A : Type.
Variable sel : Z -> string -> A -> bool.
Variable keyof : A -> option (Z * string).
Hypothesis sel_keyof :
  forall p loc r, sel p loc r = true <-> keyof r = Some (p, loc).

Lemma distinct_count (l : list A) :
  distinct sel keyof l = true <->
  forall p loc, (List.length (filter (sel p loc) l) <= 1)%nat.
Proof.
  induction l as [|r l IH]; simpl.
  - split; [intros _ p loc; lia | reflexivity].
  - rewrite andb_true_iff, IH. split.
    + intros [Hr Hl] p loc.
      destruct (sel p loc r) eqn:E; [|apply Hl].
      apply sel_keyof in E. rewrite E in Hr.
      apply negb_true_iff, filter_nil_existsb in Hr.
      rewrite Hr. simpl. lia.
    + intros H. split.
      * destruct (keyof r) as [[p loc]|] eqn:E; [|reflexivity].
        apply negb_true_iff, filter_nil_existsb.
        apply sel_keyof in E. specialize (H p loc). rewrite E in H.
        destruct (filter (sel p loc) l); [reflexivity | simpl in H; lia].
      * intros p loc. specialize (H p loc).
        destruct (sel p loc r); simpl in H; lia.
Qed.
End KeysFacts.

Lemma draft_of_key p loc r :
  draft_of p loc r = true <-> draft_key r = Some (p, loc).
Proof.
  unfold draft_of, draft_key.
  destruct (is_draft r); rewrite ?andb_true_r, ?andb_false_r.
  - rewrite andb_true_iff, Z.eqb_eq, String.eqb_eq.
    split; [intros [-> ->]; reflexivity | intros [= -> ->]; auto].
  - split; discriminate.
Qed.

Lemma stock_of_key p loc r :
  stock_of p loc r = true <-> stock_key r = Some (p, loc).
Proof.
  unfold stock_of, stock_key.
  rewrite andb_true_iff, Z.eqb_eq, String.eqb_eq.
  split; [intros [-> ->]; reflexivity | intros [= -> ->]; auto].
Qed.

Lemma draft_unique_count d :
  draft_unique d <->
  forall p loc,
    (List.length (filter (draft_of p loc) (inventory_counts d)) <= 1)%nat.
Proof. apply distinct_count, draft_of_key. Qed.

Lemma stock_unique_count d :
  stock_unique d <->
  forall p loc,
    (List.length (filter (stock_of p loc) (stock_levels d)) <= 1)%nat.
Proof. apply distinct_count, stock_of_key. Qed.

(** ** Running the commit handler *)

Lemma clean_nil fails a : clean fails a 0.
Proof. intros k Hk. lia. Qed.

Lemma clean_one fails a : fails a = false -> clean fails a 1.
Proof. intros H k Hk. replace k with a by lia. exact H. Qed.

Lemma clean_app fails a n m :
  clean fails a n -> clean fails (a + n) m -> clean fails a (n + m).
Proof.
  intros H1 H2 k Hk. destruct (Nat.lt_ge_cases k (a + n)).
  - apply H1. lia.
  - apply H2. lia.
Qed.

Lemma threw_here fails a n w' :
  fails a = true -> (0 < n)%nat -> issued w' = S a -> threw_at fails a n w'.
Proof. intros H Hn I. exists a. repeat split; [lia | lia | exact H | exact I]. Qed.

Lemma threw_left fails a n m w' :
  threw_at fails a n w' -> threw_at fails a (n + m) w'.
Proof. intros (k & Hk & F). exists k. split; [lia | exact F]. Qed.

Lemma threw_right fails a n m w' :
  threw_at fails (a + n) m w' -> threw_at fails a (n + m) w'.
Proof. intros (k & Hk & F). exists k. split; [lia | exact F]. Qed.

Lemma clean_not_faulty fails a n : clean fails a n -> faulty fails a n -> False.
Proof. intros C [k [Hk F]]. rewrite (C k Hk) in F. discriminate. Qed.

(** One pass of the loop body. *)
Lemma upsert_run fails loc item w t :
  txn w = Some t ->
  in_txn fails w (upsert_steps loc t item) (apply_upsert loc t item)
         (upsert fails loc item w).
Proof.
  intros Ht. unfold upsert, bind, query, upsert_steps, apply_upsert, in_txn.
  rewrite Ht.
  destruct (fails (issued w)) eqn:F1.
  { simpl. split; [reflexivity|].
    apply threw_here; [exact F1 | destruct (Nat.eqb _ 0); lia | reflexivity]. }
  destruct (update_stock (snd item) (fst item) loc t) as [rowCount t1] eqn:U.
  simpl. destruct (Nat.eqb rowCount 0) eqn:R; simpl.
  - destruct (fails (S (issued w))) eqn:F2; simpl.
    + split; [reflexivity|]. exists (S (issued w)).
      repeat split; [lia | lia | exact F2].
    + repeat split; try reflexivity; try lia.
      intros k Hk.
      destruct (Nat.eq_dec k (issued w)) as [->|]; [exact F1|].
      replace k with (S (issued w)) by lia. exact F2.
  - repeat split; try reflexivity; try lia.
    apply clean_one, F1.
Qed.

(** The whole loop. *)
Lemma for_of_upsert_run fails loc items :
  forall w t,
    txn w = Some t ->
    in_txn fails w (loop_steps loc items t) (fold_left (apply_upsert loc) items t)
           (for_of items (upsert fails loc) w).
Proof.
  induction items as [|item rest IH]; intros w t Ht; simpl.
  - unfold ret, in_txn. rewrite Nat.add_0_r.
    repeat split; [exact Ht | apply clean_nil].
  - unfold bind. pose proof (upsert_run fails loc item w Ht) as H1.
    destruct (upsert fails loc item w) as [[u|] w1]; unfold in_txn in H1.
    + destruct H1 as (S1 & T1 & I1 & C1).
      pose proof (IH w1 _ T1) as H2. unfold in_txn in *.
      destruct (for_of rest (upsert fails loc) w1) as [[v|] w2].
      * destruct H2 as (S2 & T2 & I2 & C2).
        repeat split; [congruence | exact T2 | lia |].
        apply clean_app; [exact C1 | now rewrite <- I1].
      * destruct H2 as (S2 & F2).
        split; [congruence|]. apply threw_right. now rewrite <- I1.
    + destruct H1 as (S1 & F1). split; [exact S1|]. now apply threw_left.
Qed.

(** The handler as a whole, from a fresh connection: it answers with the
    count and leaves [promote loc d] when no step fails, and leaves [d] as it
    was when one does. *)
Lemma commit_run fails loc d :
  commit_post fails loc d (commit fails loc (fresh d)).
Proof.
  assert (Hfail : forall k w,
             store w = d -> (k < commit_steps loc d)%nat -> fails k = true ->
             issued w = S k ->
             commit_post fails loc d
               ((rollback_txn fails ;; ret (Status500 "Commit failed")) w)).
  { intros k w Hs Hk Fk Ik.
    assert (faulty fails 0 (commit_steps loc d))
      by (exists k; split; [lia | exact Fk]).
    unfold commit_post, bind, rollback_txn, ret.
    destruct (fails (issued w)) eqn:Fr; simpl; auto.
    repeat split; auto. right. exists k. rewrite <- Ik. now split. }
  unfold commit_steps in Hfail.
  set (drafts := fst (select_drafts loc d)) in *.
  set (n := loop_steps loc drafts d) in *.
  unfold commit.
  unfold bind at 1. unfold connect, fresh; simpl.
  destruct (fails 0%nat) eqn:F0; simpl.
  { split; [reflexivity|]. split; [|now left].
    exists 0%nat. unfold commit_steps. split; [lia | exact F0]. }
  unfold try_catch, bind at 1, begin_txn; simpl.
  destruct (fails 1%nat) eqn:F1; simpl.
  { apply (Hfail 1%nat); [reflexivity | lia | exact F1 | reflexivity]. }
  unfold bind at 1, query at 1; simpl.
  destruct (fails 2%nat) eqn:F2; simpl.
  { apply (Hfail 2%nat); [reflexivity | lia | exact F2 | reflexivity]. }
  change (map (fun r => (ic_product_id r, quantity r))
              (filter (draft_at loc) (inventory_counts d))) with drafts.
  set (w3 := {| store := d; txn := Some d; issued := 3 |}).
  unfold bind at 1.
  pose proof (@for_of_upsert_run fails loc drafts w3 d eq_refl) as HL.
  fold n in HL. unfold in_txn in HL.
  destruct (for_of drafts (upsert fails loc) w3) as [[u|] w4].
  2:{ destruct HL as (S4 & k & Hk & Fk & Ik). cbv beta iota.
      apply (Hfail k); [exact S4 | simpl in Hk; lia | exact Fk | exact Ik]. }
  destruct HL as (S4 & T4 & I4 & C4). simpl in S4, I4, C4.
  unfold bind at 1, query at 1. rewrite T4.
  destruct (fails (issued w4)) eqn:F5; simpl.
  { apply (Hfail (issued w4)); [exact S4 | lia | exact F5 | reflexivity]. }
  unfold bind at 1, commit_txn; simpl.
  destruct (fails (S (issued w4))) eqn:F6; simpl.
  { apply (Hfail (S (issued w4))); [exact S4 | lia | exact F6 | reflexivity]. }
  unfold ret, commit_post, promote, commit_steps. fold drafts n.
  repeat split.
  intros k Hk.
  destruct (Nat.lt_ge_cases k 3) as [Hlt|Hge].
  - destruct k as [|[|[|k]]]; [exact F0 | exact F1 | exact F2 | lia].
  - destruct (Nat.lt_ge_cases k (3 + n)) as [Hlt'|Hge'].
    + apply C4. lia.
    + destruct (Nat.eq_dec k (issued w4)) as [->|]; [exact F5|].
      replace k with (S (issued w4)) by lia. exact F6.
Qed.

(** What [serve] makes of it. *)
Lemma serve_commit fails now loc d :
  (serve fails now (Commit loc) d =
     (CommitOk (List.length (fst (select_drafts loc d))), promote loc d) /\
   clean fails 0 (commit_steps loc d))
  \/
  (exists r,
     serve fails now (Commit loc) d = (r, d) /\
     (r = Status500 "Commit failed" \/ r = NoResponse /\ unanswered fails) /\
     faulty fails 0 (commit_steps loc d)).
Proof.
  pose proof (commit_run fails loc d) as H.
  unfold serve, handler. fold (fresh d). unfold commit_post in H.
  destruct (commit fails loc (fresh d)) as [[r|] w].
  - destruct r; try contradiction.
    + destruct H as (-> & -> & C & _). left. split; [reflexivity | exact C].
    + destruct H as (-> & -> & F & _). right. eexists. repeat split; auto.
  - destruct H as (-> & F & U). right. eexists. repeat split; auto.
Qed.

(** ** What the upsert does to the stock table *)

Lemma apply_upsert_stock loc t item :
  stock_levels (apply_upsert loc t item) =
    match filter (stock_of (fst item) loc) (stock_levels t) with
    | [] => (stock_levels t ++
             [ {| sl_product_id := fst item; sl_location := loc;
                  on_hand := snd item; available := snd item |} ])%list
    | _ :: _ =>
        map (fun r => if stock_of (fst item) loc r
                      then set_levels (snd item) r else r)
            (stock_levels t)
    end.
Proof.
  unfold apply_upsert, update_stock, insert_stock.
  destruct (filter (stock_of (fst item) loc) (stock_levels t)) eqn:E; simpl.
  - now rewrite map_id_when.
  - reflexivity.
Qed.

Lemma apply_upsert_rest loc t item :
  locations (apply_upsert loc t item) = locations t /\
  products (apply_upsert loc t item) = products t /\
  inventory_counts (apply_upsert loc t item) = inventory_counts t /\
  id_seq (apply_upsert loc t item) = id_seq t.
Proof.
  unfold apply_upsert, update_stock, insert_stock.
  destruct (Nat.eqb _ 0); simpl; auto.
Qed.

Lemma fold_upsert_counts loc items :
  forall t,
    inventory_counts (fold_left (apply_upsert loc) items t) = inventory_counts t.
Proof.
  induction items as [|item rest IH]; intros t; simpl; [reflexivity|].
  rewrite IH. apply apply_upsert_rest.
Qed.

(** The rows of the upserted pair: overwritten where there were some, one new
    row where there were none. *)
Lemma apply_upsert_same loc t p q :
  filter (stock_of p loc) (stock_levels (apply_upsert loc t (p, q))) =
    match filter (stock_of p loc) (stock_levels t) with
    | [] => [ {| sl_product_id := p; sl_location := loc;
                 on_hand := q; available := q |} ]
    | old => map (set_levels q) old
    end.
Proof.
  rewrite apply_upsert_stock. simpl fst; simpl snd.
  destruct (filter (stock_of p loc) (stock_levels t)) as [|s old] eqn:E.
  - rewrite filter_app, E. simpl. unfold stock_of; simpl.
    now rewrite Z.eqb_refl, String.eqb_refl.
  - rewrite filter_map_stable.
    + rewrite E. apply map_ext_in. intros r Hr.
      rewrite <- E in Hr. apply filter_In in Hr. now rewrite (proj2 Hr).
    + intros r. now destruct (stock_of p loc r) eqn:Er.
Qed.

(** The rows of every other pair are left alone. *)
Lemma apply_upsert_other loc t p q p' loc' :
  (p', loc') <> (p, loc) ->
  filter (stock_of p' loc') (stock_levels (apply_upsert loc t (p, q))) =
  filter (stock_of p' loc') (stock_levels t).
Proof.
  intros Hne. rewrite apply_upsert_stock. simpl fst; simpl snd.
  assert (Hexcl : forall r, stock_of p loc r = true -> stock_of p' loc' r = false).
  { intros r Hr. destruct (stock_of p' loc' r) eqn:E; [|reflexivity].
    apply stock_of_key in Hr. apply stock_of_key in E. congruence. }
  destruct (filter (stock_of p loc) (stock_levels t)) as [|s old] eqn:E.
  - rewrite filter_app. simpl.
    destruct (stock_of p' loc' _) eqn:E'; [|apply app_nil_r].
    apply stock_of_key in E'. unfold stock_key in E'. simpl in E'. congruence.
  - apply filter_map_untouched.
    + intros r. now destruct (stock_of p loc r).
    + intros r Hr. destruct (stock_of p loc r) eqn:Er; [|reflexivity].
      rewrite (Hexcl r Er) in Hr. discriminate.
Qed.

(** ** What the loop does to the stock table *)

Lemma fold_upsert_other loc items p' loc' :
  forall t,
    (forall q, In (p', q) items -> loc' <> loc) ->
    filter (stock_of p' loc') (stock_levels (fold_left (apply_upsert loc) items t)) =
    filter (stock_of p' loc') (stock_levels t).
Proof.
  induction items as [|[p q] rest IH]; intros t Hout; simpl; [reflexivity|].
  rewrite IH by (intros q' Hq'; apply (Hout q'); now right).
  apply apply_upsert_other. intros [= -> ->].
  apply (Hout q); [now left | reflexivity].
Qed.

Lemma fold_upsert_pair loc items p q :
  forall t,
    NoDup (map fst items) ->
    In (p, q) items ->
    filter (stock_of p loc) (stock_levels (fold_left (apply_upsert loc) items t)) =
      match filter (stock_of p loc) (stock_levels t) with
      | [] => [ {| sl_product_id := p; sl_location := loc;
                   on_hand := q; available := q |} ]
      | old => map (set_levels q) old
      end.
Proof.
  induction items as [|[p0 q0] rest IH]; intros t Hnd Hin; [contradiction|].
  simpl in Hnd. inversion Hnd as [|? ? Hnotin Hnd']; subst.
  simpl. destruct Hin as [[= -> ->]|Hin].
  - rewrite fold_upsert_other.
    + apply apply_upsert_same.
    + intros q' Hq'. exfalso. apply Hnotin.
      change p with (fst (p, q')). now apply in_map.
  - rewrite IH by assumption.
    rewrite apply_upsert_other; [reflexivity|].
    intros [= ->]. apply Hnotin.
    change p0 with (fst (p0, q)). now apply in_map.
Qed.

(** ** Drafts of a location *)

Lemma draft_of_at p loc r :
  draft_of p loc r = (ic_product_id r =? p) && draft_at loc r.
Proof. unfold draft_of, draft_at. now rewrite andb_assoc. Qed.

Lemma select_drafts_keys loc d :
  map fst (fst (select_drafts loc d)) =
  map ic_product_id (filter (draft_at loc) (inventory_counts d)).
Proof. unfold select_drafts. simpl. now rewrite map_map. Qed.

Lemma drafts_nodup loc d :
  draft_unique d -> NoDup (map fst (fst (select_drafts loc d))).
Proof.
  rewrite select_drafts_keys. unfold draft_unique.
  induction (inventory_counts d) as [|r l IH]; simpl; [constructor|].
  rewrite andb_true_iff. intros [Hr Hl].
  destruct (draft_at loc r) eqn:E; [|now apply IH].
  simpl. constructor; [|now apply IH].
  intros Hin. apply in_map_iff in Hin. destruct Hin as (x & Hx & Hin).
  apply filter_In in Hin. destruct Hin as [Hin Hat].
  unfold draft_at in E. apply andb_true_iff in E. destruct E as [Eloc Edr].
  apply String.eqb_eq in Eloc.
  unfold draft_key in Hr. rewrite Edr, Eloc in Hr.
  apply negb_true_iff in Hr.
  assert (existsb (draft_of (ic_product_id r) loc) l = true); [|congruence].
  apply existsb_exists. exists x. split; [exact Hin|].
  rewrite draft_of_at, Hat, Hx, Z.eqb_refl. reflexivity.
Qed.

Lemma review_no_drafts fails now loc d :
  filter (draft_at loc) (inventory_counts d) = [] ->
  fails 0%nat = false ->
  serve fails now (Review loc) d = (ReviewOk [], d).
Proof.
  intros E F. unfold serve, handler, review, try_catch, bind, query, select_review.
  simpl. rewrite F, E. reflexivity.
Qed.

Lemma promote_counts loc d :
  inventory_counts (promote loc d) =
  filter (fun r => negb (draft_at loc r)) (inventory_counts d).
Proof.
  unfold promote, delete_drafts. simpl. now rewrite fold_upsert_counts.
Qed.

Lemma promote_stock loc d :
  stock_levels (promote loc d) =
  stock_levels (fold_left (apply_upsert loc) (fst (select_drafts loc d)) d).
Proof. reflexivity. Qed.

Lemma forall_set_levels q (old : list stock_level) :
  forall s, In s (map (set_levels q) old) -> on_hand s = q /\ available s = q.
Proof.
  intros s Hs. apply in_map_iff in Hs. destruct Hs as (x & <- & _). now split.
Qed.

(** C1: from a database that has at most one draft per (product, location),
    a commit of location [loc] none of whose steps fails is answered with
    success; and whenever it is answered with success it has emptied the
    review list of [loc], its count is the number of drafts [loc] had, and for
    every draft [loc] had there is at least one stock row of that (product,
    [loc]) pair, every such row having [on_hand] and [available] equal to the
    draft's quantity. *)
Theorem commit_promotes_every_draft fails now loc d :
  draft_unique d ->
  (clean fails 0 (commit_steps loc d) ->
   exists c d', serve fails now (Commit loc) d = (CommitOk c, d')) /\
  (forall c d',
      serve fails now (Commit loc) d = (CommitOk c, d') ->
      serve healthy now (Review loc) d' = (ReviewOk [], d') /\
      c = List.length (filter (draft_at loc) (inventory_counts d)) /\
      forall r,
        In r (inventory_counts d) -> draft_at loc r = true ->
        (exists s, In s (stock_levels d') /\
                   sl_product_id s = ic_product_id r /\ sl_location s = loc /\
                   on_hand s = quantity r /\ available s = quantity r) /\
        (forall s, In s (stock_levels d') ->
                   stock_of (ic_product_id r) loc s = true ->
                   on_hand s = quantity r /\ available s = quantity r)).
Proof.
  intros Hu. split.
  { intros C.
    destruct (serve_commit fails now loc d) as [[H _]|(r & _ & _ & F)].
    - eauto.
    - destruct (clean_not_faulty C F). }
  intros c d' Hs.
  destruct (serve_commit fails now loc d) as [[H _]|(r & H & [->|[-> _]] & _)];
    rewrite H in Hs; try discriminate.
  injection Hs as <- <-. split; [|split].
  - apply review_no_drafts; [|reflexivity].
    rewrite promote_counts. apply filter_filter_negb.
  - unfold select_drafts. simpl. now rewrite length_map.
  - intros r Hin Hat.
    assert (Hitem : In (ic_product_id r, quantity r) (fst (select_drafts loc d))).
    { unfold select_drafts. simpl.
      apply (in_map (fun r => (ic_product_id r, quantity r))).
      apply filter_In. now split. }
    pose proof (@fold_upsert_pair loc _ _ _ d (drafts_nodup loc Hu) Hitem) as Hp.
    rewrite <- promote_stock in Hp.
    assert (Hall : forall s, In s (filter (stock_of (ic_product_id r) loc)
                                          (stock_levels (promote loc d))) ->
                             on_hand s = quantity r /\ available s = quantity r).
    { rewrite Hp. destruct (filter _ (stock_levels d)) as [|s0 old].
      - intros s [<-|[]]. now split.
      - apply forall_set_levels. }
    split.
    + assert (Hne : filter (stock_of (ic_product_id r) loc)
                           (stock_levels (promote loc d)) <> []).
      { rewrite Hp. destruct (filter _ (stock_levels d)); discriminate. }
      destruct (filter _ (stock_levels (promote loc d))) as [|s rows] eqn:E;
        [contradiction|].
      exists s. destruct (Hall s (or_introl eq_refl)) as [? ?].
      assert (Hs : In s (filter (stock_of (ic_product_id r) loc)
                                (stock_levels (promote loc d))))
        by (rewrite E; now left).
      apply filter_In in Hs. destruct Hs as [Hs Hk].
      apply stock_of_key in Hk. injection Hk as Hk1 Hk2.
      repeat split; assumption.
    + intros s Hs Hk. apply Hall. apply filter_In. now split.
Qed.

Lemma commit_promotes_every_draft_witness :
  draft_unique dock_db /\
  serve healthy 0 (Commit "Dock") dock_db =
    (CommitOk 2, promote "Dock" dock_db) /\
  serve healthy 0 (Review "Dock") (promote "Dock" dock_db) =
    (ReviewOk [], promote "Dock" dock_db) /\
  forall s, In s (stock_levels (promote "Dock" dock_db)) ->
            stock_of 2 "Dock" s = true -> on_hand s = 3 /\ available s = 3.
Proof.
  assert (U : draft_unique dock_db) by reflexivity.
  assert (S : serve healthy 0 (Commit "Dock") dock_db =
              (CommitOk 2, promote "Dock" dock_db)) by reflexivity.
  destruct (@commit_promotes_every_draft healthy 0 "Dock" dock_db U) as [_ P].
  destruct (P 2%nat (promote "Dock" dock_db) S) as (R & _ & Q).
  repeat split; try assumption;
    apply (Q (mkCount 2 2 "Dock" 3 7 "DRAFT" 101)); simpl; auto.
Defined.

(** ** The other handlers *)

Lemma serve_update fails now i q d :
  serve fails now (Update i q) d =
    if fails 0%nat then (Status500 "Update failed", d)
    else (UpdateOk, effect now (Update i q) d).
Proof.
  unfold serve, handler, update, try_catch, bind, query, ret, effect.
  destruct (q <=? 0); simpl; destruct (fails 0%nat); reflexivity.
Qed.

Lemma serve_scan fails now barcode loc uid d :
  serve fails now (Scan barcode loc uid) d =
    if fails 0%nat then (Status500 "Scan failed", d)
    else
      match fst (select_product_by_sku barcode d) with
      | [] => (Status404 "Product not found", d)
      | p :: _ =>
          if fails 1%nat then (Status500 "Scan failed", d)
          else if fails 2%nat then (Status500 "Scan failed", d)
          else (ScanOk p, effect now (Scan barcode loc uid) d)
      end.
Proof.
  unfold serve, handler, scan, try_catch, bind, query, ret, effect. simpl.
  destruct (fails 0%nat); [reflexivity|].
  destruct (filter _ (products d)) as [|p ps]; [reflexivity|]. simpl.
  destruct (fails 1%nat); [reflexivity|]. simpl.
  destruct (map id _) as [|i ids]; simpl;
    destruct (fails 2%nat); reflexivity.
Qed.

Lemma serve_review fails now loc d :
  snd (serve fails now (Review loc) d) = d.
Proof.
  unfold serve, handler, review, try_catch, bind, query, ret. simpl.
  destruct (fails 0%nat); reflexivity.
Qed.

(** A request leaves the database as it found it or does all of its work. *)
Lemma serve_effect fails now r d :
  snd (serve fails now r d) = d \/ snd (serve fails now r d) = effect now r d.
Proof.
  destruct r as [barcode loc uid|loc|i q|loc].
  - rewrite serve_scan. destruct (fails 0%nat); [now left|].
    destruct (fst (select_product_by_sku barcode d)); [now left|].
    destruct (fails 1%nat); [now left|]. destruct (fails 2%nat); [now left|].
    now right.
  - left. apply serve_review.
  - rewrite serve_update. destruct (fails 0%nat); [now left | now right].
  - destruct (serve_commit fails now loc d) as [[H _]|(r & H & _)];
      rewrite H; [now right | now left].
Qed.

Lemma with_counts_same d : with_counts d (inventory_counts d) = d.
Proof. now destruct d. Qed.

Lemma promote_no_drafts loc d :
  filter (draft_at loc) (inventory_counts d) = [] -> promote loc d = d.
Proof.
  intros E. unfold promote, select_drafts, delete_drafts. simpl.
  rewrite E. simpl. rewrite filter_none by exact E. apply with_counts_same.
Qed.

Lemma commit_steps_no_drafts loc d :
  filter (draft_at loc) (inventory_counts d) = [] -> commit_steps loc d = 5%nat.
Proof.
  intros E. unfold commit_steps, select_drafts. simpl. now rewrite E.
Qed.

(** C2: the handler does not keep the claim when the ROLLBACK fails too.
    Committing the dock of [dock_db] on storage that rejects the INSERT of the
    second draft (the sixth awaited call) and then the ROLLBACK of the catch
    block: the handler's promise rejects, so that no response, and no
    "Commit failed", is sent; and the connection goes back to the pool with
    its transaction still open, holding the UPDATE already made for the
    first draft ([on_hand] and [available] 5 where the table has 10).  The
    durable database is as it was. *)
Theorem rollback_rejected_leaves_commit_open :
  commit lost_at_insert "Dock" (fresh dock_db) =
    (Thrown,
     {| store := dock_db;
        txn := Some (with_stock dock_db [ mkStock 1 "Dock" 5 5 ]);
        issued := 7 |}) /\
  serve lost_at_insert 0 (Commit "Dock") dock_db = (NoResponse, dock_db).
Proof. split; reflexivity. Qed.

(** C8: when a commit of [loc] has failed at any of its steps, a second
    commit of [loc] that meets no failure answers and leaves the database,
    the stock table included, exactly as a single successful commit of the
    original database does. *)
Theorem commit_retry_after_rollback fails now now' loc d :
  faulty fails 0 (commit_steps loc d) ->
  serve healthy now' (Commit loc) (snd (serve fails now (Commit loc) d)) =
  serve healthy now' (Commit loc) d.
Proof.
  intros F.
  destruct (serve_commit fails now loc d) as [[_ C]|(r & H & _)].
  - destruct (clean_not_faulty C F).
  - now rewrite H.
Qed.

Lemma commit_retry_after_rollback_witness :
  faulty (fails_at 6) 0 (commit_steps "Dock" dock_db) /\
  stock_levels
    (snd (serve healthy 1 (Commit "Dock")
            (snd (serve (fails_at 6) 0 (Commit "Dock") dock_db)))) =
  [ mkStock 1 "Dock" 5 5; mkStock 2 "Dock" 3 3 ].
Proof.
  assert (F : faulty (fails_at 6) 0 (commit_steps "Dock" dock_db)).
  { exists 6%nat. vm_compute. repeat split; lia. }
  split; [exact F|].
  rewrite (@commit_retry_after_rollback (fails_at 6) 0 1 "Dock" dock_db F).
  reflexivity.
Defined.

(** C10: a commit of a location that has no draft row, whether or not the
    location directory knows the name, changes nothing in the database and
    never answers 404; when its five steps (connect, BEGIN, SELECT, DELETE,
    COMMIT) succeed it answers success with count 0. *)
Theorem commit_without_drafts fails now loc d :
  filter (draft_at loc) (inventory_counts d) = [] ->
  snd (serve fails now (Commit loc) d) = d /\
  (forall m, fst (serve fails now (Commit loc) d) <> Status404 m) /\
  (clean fails 0 5 -> serve fails now (Commit loc) d = (CommitOk 0, d)).
Proof.
  intros E.
  destruct (serve_commit fails now loc d) as [[H C]|(r & H & Hr & F)];
    rewrite H; simpl.
  - rewrite (promote_no_drafts loc d E). unfold select_drafts. simpl. rewrite E.
    split; [reflexivity|]. split; [discriminate | reflexivity].
  - split; [reflexivity|]. split.
    + intros m. destruct Hr as [->|[-> _]]; discriminate.
    + intros C. rewrite (commit_steps_no_drafts loc d E) in F.
      destruct (clean_not_faulty C F).
Qed.

Lemma commit_without_drafts_witness :
  filter (draft_at "Yard") (inventory_counts dock_db) = [] /\
  existsb (String.eqb "Yard") (locations dock_db) = false /\
  serve healthy 0 (Commit "Yard") dock_db = (CommitOk 0, dock_db).
Proof.
  assert (E : filter (draft_at "Yard") (inventory_counts dock_db) = [])
    by reflexivity.
  split; [exact E|]. split; [reflexivity|].
  apply (@commit_without_drafts healthy 0 "Yard" dock_db E).
  intros k _. reflexivity.
Defined.

(** C7: a successful commit overwrites.  For a draft of quantity [q] at
    [loc], the stock rows of its (product, [loc]) pair afterwards are the rows
    the pair had before with [on_hand] and [available] both set to [q],
    whatever they held; when the pair had no row they are one new row with
    both fields [q]. *)
Theorem commit_overwrites_stock fails now loc d c d' r :
  draft_unique d ->
  serve fails now (Commit loc) d = (CommitOk c, d') ->
  In r (inventory_counts d) -> draft_at loc r = true ->
  filter (stock_of (ic_product_id r) loc) (stock_levels d') =
    match filter (stock_of (ic_product_id r) loc) (stock_levels d) with
    | [] => [ {| sl_product_id := ic_product_id r; sl_location := loc;
                 on_hand := quantity r; available := quantity r |} ]
    | old => map (set_levels (quantity r)) old
    end.
Proof.
  intros Hu Hs Hin Hat.
  destruct (serve_commit fails now loc d) as [[H _]|(r' & H & [->|[-> _]] & _)];
    rewrite H in Hs; try discriminate.
  injection Hs as <- <-. rewrite promote_stock.
  apply fold_upsert_pair; [now apply drafts_nodup|].
  unfold select_drafts. simpl.
  apply (in_map (fun r => (ic_product_id r, quantity r))).
  apply filter_In. now split.
Qed.

Lemma commit_overwrites_stock_witness :
  filter (stock_of 1 "Dock") (stock_levels dock_db) = [ mkStock 1 "Dock" 10 10 ] /\
  filter (stock_of 1 "Dock") (stock_levels (promote "Dock" dock_db)) =
    [ mkStock 1 "Dock" 5 5 ] /\
  filter (stock_of 2 "Dock") (stock_levels (promote "Dock" dock_db)) =
    [ mkStock 2 "Dock" 3 3 ].
Proof.
  assert (U : draft_unique dock_db) by reflexivity.
  assert (S : serve healthy 0 (Commit "Dock") dock_db =
              (CommitOk 2, promote "Dock" dock_db)) by reflexivity.
  split; [reflexivity|]. split.
  - apply (@commit_overwrites_stock healthy 0 "Dock" dock_db 2 _
             (mkCount 1 1 "Dock" 5 7 "DRAFT" 100) U S); simpl; auto.
  - apply (@commit_overwrites_stock healthy 0 "Dock" dock_db 2 _
             (mkCount 2 2 "Dock" 3 7 "DRAFT" 101) U S); simpl; auto.
Defined.

(** ** The stock table across requests *)

Lemma grows_once_refl n : grows_once n n.
Proof. now left. Qed.

Lemma grows_once_trans n m k : grows_once n m -> grows_once m k -> grows_once n k.
Proof. unfold grows_once. lia. Qed.

Lemma apply_upsert_count loc t item p loc' :
  grows_once (pair_count p loc' t) (pair_count p loc' (apply_upsert loc t item)).
Proof.
  unfold pair_count. destruct item as [p0 q0].
  destruct (Z.eq_dec p p0) as [->|Hp].
  - destruct (string_dec loc' loc) as [->|Hl].
    + rewrite apply_upsert_same.
      destruct (filter (stock_of p0 loc) (stock_levels t)) eqn:E.
      * right. now split.
      * left. now rewrite length_map.
    + left. rewrite apply_upsert_other; [reflexivity | congruence].
  - left. rewrite apply_upsert_other; [reflexivity | congruence].
Qed.

Lemma apply_upsert_written loc t item s :
  In s (stock_levels (apply_upsert loc t item)) ->
  In s (stock_levels t) \/ on_hand s = available s.
Proof.
  rewrite apply_upsert_stock.
  destruct (filter (stock_of (fst item) loc) (stock_levels t)).
  - intros H. apply in_app_or in H. destruct H as [H|[<-|[]]]; [now left | now right].
  - intros H. apply in_map_iff in H. destruct H as (x & <- & Hx).
    destruct (stock_of (fst item) loc x); [now right | now left].
Qed.

Lemma fold_upsert_count loc items p loc' :
  forall t,
    grows_once (pair_count p loc' t)
               (pair_count p loc' (fold_left (apply_upsert loc) items t)).
Proof.
  induction items as [|item rest IH]; intros t; simpl; [apply grows_once_refl|].
  eapply grows_once_trans; [apply apply_upsert_count | apply IH].
Qed.

Lemma fold_upsert_written loc items s :
  forall t,
    In s (stock_levels (fold_left (apply_upsert loc) items t)) ->
    In s (stock_levels t) \/ on_hand s = available s.
Proof.
  induction items as [|item rest IH]; intros t; simpl; [now left|].
  intros H. apply IH in H. destruct H as [H|H]; [|now right].
  now apply apply_upsert_written in H.
Qed.

Lemma effect_stock now r d :
  match r with
  | Commit loc =>
      stock_levels (effect now r d) =
      stock_levels (fold_left (apply_upsert loc) (fst (select_drafts loc d)) d)
  | _ => stock_levels (effect now r d) = stock_levels d
  end.
Proof.
  destruct r as [barcode loc uid|loc|i q|loc]; simpl; try reflexivity.
  - destruct (filter _ (products d)); [reflexivity|].
    destruct (map id _); reflexivity.
  - destruct (q <=? 0); reflexivity.
Qed.

Lemma serve_count fails now r d p loc :
  grows_once (pair_count p loc d) (pair_count p loc (snd (serve fails now r d))).
Proof.
  destruct (serve_effect fails now r d) as [->| ->]; [apply grows_once_refl|].
  pose proof (effect_stock now r d) as H. unfold pair_count.
  destruct r; rewrite H; try apply grows_once_refl.
  apply fold_upsert_count.
Qed.

Lemma serve_written fails now r d s :
  In s (stock_levels (snd (serve fails now r d))) ->
  In s (stock_levels d) \/ on_hand s = available s.
Proof.
  destruct (serve_effect fails now r d) as [->| ->]; [now left|].
  pose proof (effect_stock now r d) as H.
  destruct r; rewrite H; try (now left).
  apply fold_upsert_written.
Qed.

Lemma serve_all_count calls p loc :
  forall d,
    grows_once (pair_count p loc d) (pair_count p loc (serve_all calls d)).
Proof.
  induction calls as [|c cs IH]; intros d; simpl; [apply grows_once_refl|].
  eapply grows_once_trans; [apply serve_count | apply IH].
Qed.

Lemma serve_all_written calls s :
  forall d,
    In s (stock_levels (serve_all calls d)) ->
    In s (stock_levels d) \/ on_hand s = available s.
Proof.
  induction calls as [|c cs IH]; intros d; simpl; [now left|].
  intros H. apply IH in H. destruct H as [H|H]; [|now right].
  now apply serve_written in H.
Qed.

(** C9: across any run of requests, a database with at most one stock row
    per (product, location) keeps at most one; every stock row of the final
    database is a row of the initial one or has [on_hand = available]; and the
    number of rows of a pair never moves except from none to one, so a pair
    that has a row is updated in place and never given a second row. *)
Theorem stock_ledger_invariant calls d :
  stock_unique d ->
  stock_unique (serve_all calls d) /\
  (forall s, In s (stock_levels (serve_all calls d)) ->
             In s (stock_levels d) \/ on_hand s = available s) /\
  (forall p loc,
      grows_once (pair_count p loc d) (pair_count p loc (serve_all calls d))).
Proof.
  intros U. split; [|split].
  - apply stock_unique_count. intros p loc.
    rewrite stock_unique_count in U. specialize (U p loc).
    pose proof (serve_all_count calls p loc d) as G.
    unfold grows_once, pair_count in G. lia.
  - intros s. apply serve_all_written.
  - intros p loc. apply serve_all_count.
Qed.

Lemma stock_ledger_invariant_witness :
  stock_unique dock_db /\
  stock_unique (serve_all dock_session dock_db) /\
  stock_levels (serve_all dock_session dock_db) =
    [ mkStock 1 "Dock" 1 1; mkStock 2 "Dock" 4 4 ].
Proof.
  assert (U : stock_unique dock_db) by reflexivity.
  split; [exact U|]. split; [|reflexivity].
  apply (@stock_ledger_invariant dock_session dock_db U).
Defined.

(** ** The draft table across requests *)

Lemma map_quantity_unique (g : inventory_count -> inventory_count) d :
  (forall p loc r, draft_of p loc (g r) = draft_of p loc r) ->
  draft_unique d ->
  draft_unique (with_counts d (map g (inventory_counts d))).
Proof.
  intros Hg U. apply draft_unique_count. intros p loc. simpl.
  rewrite filter_map_stable by apply Hg. rewrite length_map.
  now apply draft_unique_count.
Qed.

Lemma filter_counts_unique (f : inventory_count -> bool) d :
  draft_unique d ->
  draft_unique (with_counts d (filter f (inventory_counts d))).
Proof.
  intros U. apply draft_unique_count. intros p loc. simpl.
  rewrite draft_unique_count in U. specialize (U p loc).
  pose proof (length_filter_filter (draft_of p loc) f (inventory_counts d)). lia.
Qed.

Lemma insert_draft_unique p loc uid now d :
  filter (draft_of p loc) (inventory_counts d) = [] ->
  draft_unique d ->
  draft_unique (snd (insert_draft p loc uid now d)).
Proof.
  intros E U. apply draft_unique_count. intros p' loc'. simpl.
  rewrite filter_app, length_app. simpl.
  rewrite draft_unique_count in U. specialize (U p' loc').
  destruct (draft_of p' loc' _) eqn:K; simpl; [|lia].
  apply draft_of_key in K. unfold draft_key in K. simpl in K.
  injection K as <- <-. rewrite E. simpl. lia.
Qed.

Lemma effect_draft_unique now r d :
  draft_unique d -> draft_unique (effect now r d).
Proof.
  intros U. destruct r as [barcode loc uid|loc|i q|loc]; simpl.
  - destruct (filter _ (products d)) as [|p ps]; [exact U|].
    destruct (map id (filter (draft_of (product_id p) loc) (inventory_counts d)))
      as [|i ids] eqn:E.
    + apply map_eq_nil in E. now apply insert_draft_unique.
    + apply map_quantity_unique; [|exact U].
      intros p' loc' r. now destruct (id r =? i).
  - exact U.
  - destruct (q <=? 0).
    + now apply filter_counts_unique.
    + apply map_quantity_unique; [|exact U].
      intros p' loc' r. now destruct (id r =? i).
  - apply draft_unique_count. intros p loc'. rewrite promote_counts.
    rewrite draft_unique_count in U. specialize (U p loc').
    pose proof (length_filter_filter (draft_of p loc')
                  (fun r => negb (draft_at loc r)) (inventory_counts d)). lia.
Qed.

Lemma serve_draft_unique fails now r d :
  draft_unique d -> draft_unique (snd (serve fails now r d)).
Proof.
  intros U. destruct (serve_effect fails now r d) as [->| ->];
    [exact U | now apply effect_draft_unique].
Qed.

(** C4: served one after the other, scans, updates, reviews and commits,
    failing or not, keep at most one DRAFT row per (product, location) in every
    database they pass through. *)
Theorem draft_rows_stay_unique calls :
  forall d, draft_unique d -> draft_unique (serve_all calls d).
Proof.
  induction calls as [|c cs IH]; intros d U; simpl; [exact U|].
  apply IH. now apply serve_draft_unique.
Qed.

Lemma draft_rows_stay_unique_witness :
  draft_unique dock_db /\
  draft_unique (serve_all dock_session dock_db) /\
  inventory_counts (serve_all dock_session dock_db) =
    [ mkCount 3 1 "Aisle 1" 4 8 "DRAFT" 102 ].
Proof.
  assert (U : draft_unique dock_db) by reflexivity.
  split; [exact U|]. split; [|reflexivity].
  apply (@draft_rows_stay_unique dock_session dock_db U).
Defined.

(** ** Scans *)

Lemma draft_of_bump p loc i r : draft_of p loc (bump i r) = draft_of p loc r.
Proof. unfold bump. now destruct (id r =? i). Qed.

Lemma scan_ok fails now barcode loc uid d p d' :
  serve fails now (Scan barcode loc uid) d = (ScanOk p, d') ->
  (exists ps, fst (select_product_by_sku barcode d) = p :: ps) /\
  d' = effect now (Scan barcode loc uid) d.
Proof.
  rewrite serve_scan. destruct (fails 0%nat); [discriminate|].
  destruct (fst (select_product_by_sku barcode d)) as [|p0 ps]; [discriminate|].
  destruct (fails 1%nat); [discriminate|]. destruct (fails 2%nat); [discriminate|].
  intros [= <- <-]. split; [now exists ps | reflexivity].
Qed.

Lemma scan_existing now barcode loc uid d p ps r rest :
  fst (select_product_by_sku barcode d) = p :: ps ->
  filter (draft_of (product_id p) loc) (inventory_counts d) = r :: rest ->
  effect now (Scan barcode loc uid) d =
    with_counts d (map (bump (id r)) (inventory_counts d)).
Proof.
  intros Hp Hr. unfold effect. rewrite Hp.
  unfold select_draft_ids. simpl. rewrite Hr. reflexivity.
Qed.

Lemma scan_absent now barcode loc uid d p ps :
  fst (select_product_by_sku barcode d) = p :: ps ->
  filter (draft_of (product_id p) loc) (inventory_counts d) = [] ->
  effect now (Scan barcode loc uid) d =
    snd (insert_draft (product_id p) loc uid now d).
Proof.
  intros Hp Hr. unfold effect. rewrite Hp.
  unfold select_draft_ids. simpl. rewrite Hr. reflexivity.
Qed.

Lemma draft_of_new p loc uid now i :
  draft_of p loc (mkCount i p loc 1 uid "DRAFT" now) = true.
Proof.
  unfold draft_of, is_draft. simpl. now rewrite Z.eqb_refl, String.eqb_refl.
Qed.

Lemma serve_scan_healthy now barcode loc uid d p ps :
  fst (select_product_by_sku barcode d) = p :: ps ->
  serve healthy now (Scan barcode loc uid) d =
    (ScanOk p, effect now (Scan barcode loc uid) d).
Proof. intros Hp. rewrite serve_scan, Hp. reflexivity. Qed.

(** Further scans of a pair that has exactly one draft row. *)
Lemma scans_bump barcode loc p ps scans :
  forall d r,
    fst (select_product_by_sku barcode d) = p :: ps ->
    filter (draft_of (product_id p) loc) (inventory_counts d) = [r] ->
    filter (draft_of (product_id p) loc)
           (inventory_counts (serve_all (scans_of barcode loc scans) d)) =
      [ set_quantity (quantity r + Z.of_nat (List.length scans)) r ].
Proof.
  induction scans as [|[now uid] scans IH]; intros d r Hp Hr.
  - simpl. rewrite Hr, Z.add_0_r. now destruct r.
  - cbn [scans_of map serve_all fold_left call_fails call_now call_request fst snd].
    rewrite (serve_scan_healthy now barcode loc uid d Hp).
    cbn [snd]. rewrite (scan_existing now barcode loc uid d Hp Hr).
    fold (scans_of barcode loc scans).
    change (fold_left _ (scans_of barcode loc scans) ?x)
      with (serve_all (scans_of barcode loc scans) x).
    rewrite (IH _ (set_quantity (quantity r + 1) r)).
    + simpl. f_equal. unfold set_quantity. simpl. f_equal. lia.
    + exact Hp.
    + simpl. rewrite filter_map_stable by (intros x; apply draft_of_bump).
      rewrite Hr. simpl. unfold bump. now rewrite Z.eqb_refl.
Qed.

(** C3: for a barcode that resolves to product [p], a scan at [loc] that is
    answered with success
    - when the pair has DRAFT rows, the first of them being [r], adds no row:
      the table is the old one with the quantity of the row of [r]'s id one
      higher, and the pair's drafts are [r] with [quantity r + 1] followed by
      the others;
    - when the pair has no DRAFT row, appends one row of quantity 1, which is
      then the pair's only draft;
    and after [n >= 1] successful scans in a row from a database where the
    pair has no draft, the pair has exactly one DRAFT row, of quantity [n]. *)
Theorem scan_merges_or_creates barcode loc d p ps :
  fst (select_product_by_sku barcode d) = p :: ps ->
  (forall fails now uid d' r rest,
      filter (draft_of (product_id p) loc) (inventory_counts d) = r :: rest ->
      serve fails now (Scan barcode loc uid) d = (ScanOk p, d') ->
      inventory_counts d' = map (bump (id r)) (inventory_counts d) /\
      List.length (inventory_counts d') = List.length (inventory_counts d) /\
      filter (draft_of (product_id p) loc) (inventory_counts d') =
        set_quantity (quantity r + 1) r :: map (bump (id r)) rest) /\
  (forall fails now uid d',
      filter (draft_of (product_id p) loc) (inventory_counts d) = [] ->
      serve fails now (Scan barcode loc uid) d = (ScanOk p, d') ->
      inventory_counts d' =
        (inventory_counts d ++
         [ mkCount (id_seq d) (product_id p) loc 1 uid "DRAFT" now ])%list /\
      filter (draft_of (product_id p) loc) (inventory_counts d') =
        [ mkCount (id_seq d) (product_id p) loc 1 uid "DRAFT" now ]) /\
  (forall now uid scans,
      filter (draft_of (product_id p) loc) (inventory_counts d) = [] ->
      filter (draft_of (product_id p) loc)
             (inventory_counts
                (serve_all (scans_of barcode loc ((now, uid) :: scans)) d)) =
        [ mkCount (id_seq d) (product_id p) loc
                  (Z.of_nat (S (List.length scans))) uid "DRAFT" now ]).
Proof.
  intros Hp. split; [|split].
  - intros fails now uid d' r rest Hr Hs.
    apply scan_ok in Hs. destruct Hs as [_ ->].
    rewrite (scan_existing now barcode loc uid d Hp Hr). simpl.
    split; [reflexivity|]. split; [apply length_map|].
    rewrite filter_map_stable by (intros x; apply draft_of_bump).
    rewrite Hr. simpl. unfold bump at 1. now rewrite Z.eqb_refl.
  - intros fails now uid d' Hr Hs.
    apply scan_ok in Hs. destruct Hs as [_ ->].
    rewrite (scan_absent now barcode loc uid d Hp Hr). simpl.
    split; [reflexivity|].
    rewrite filter_app, Hr. simpl. now rewrite draft_of_new.
  - intros now uid scans Hr.
    cbn [scans_of map serve_all fold_left call_fails call_now call_request fst snd].
    rewrite (serve_scan_healthy now barcode loc uid d Hp).
    cbn [snd]. rewrite (scan_absent now barcode loc uid d Hp Hr).
    fold (scans_of barcode loc scans).
    change (fold_left _ (scans_of barcode loc scans) ?x)
      with (serve_all (scans_of barcode loc scans) x).
    rewrite (@scans_bump barcode loc p ps scans _
               (mkCount (id_seq d) (product_id p) loc 1 uid "DRAFT" now)).
    + unfold set_quantity.
      cbn [id ic_product_id location quantity user_id status scanned_at].
      rewrite Nat2Z.inj_succ. do 2 f_equal. lia.
    + exact Hp.
    + simpl. rewrite filter_app, Hr. simpl. now rewrite draft_of_new.
Qed.

Lemma scan_merges_or_creates_witness :
  fst (select_product_by_sku "A1" empty_db) = [ mkProduct 1 "Widget" "A1" ] /\
  inventory_counts (snd (serve healthy 100 (Scan "A1" "Dock" 7) empty_db)) =
    [ mkCount 1 1 "Dock" 1 7 "DRAFT" 100 ] /\
  filter (draft_of 1 "Dock")
    (inventory_counts
       (serve_all (scans_of "A1" "Dock" [ (100, 7); (101, 8); (102, 7) ])
                  empty_db)) =
    [ mkCount 1 1 "Dock" 3 7 "DRAFT" 100 ] /\
  filter (draft_of 1 "Dock")
    (inventory_counts (snd (serve healthy 200 (Scan "A1" "Dock" 9) dock_db))) =
    [ mkCount 1 1 "Dock" 6 7 "DRAFT" 100 ].
Proof.
  assert (P : fst (select_product_by_sku "A1" empty_db) =
              [ mkProduct 1 "Widget" "A1" ]) by reflexivity.
  assert (Q : fst (select_product_by_sku "A1" dock_db) =
              [ mkProduct 1 "Widget" "A1" ]) by reflexivity.
  destruct (@scan_merges_or_creates "A1" "Dock" empty_db _ _ P) as (_ & B & C).
  destruct (@scan_merges_or_creates "A1" "Dock" dock_db _ _ Q) as (A & _ & _).
  split; [exact P|]. split; [|split].
  - destruct (B healthy 100 7
                (snd (serve healthy 100 (Scan "A1" "Dock" 7) empty_db))
                eq_refl eq_refl) as [E _].
    rewrite E. reflexivity.
  - exact (C 100 7 [ (101, 8); (102, 7) ] eq_refl).
  - destruct (A healthy 200 9
                (snd (serve healthy 200 (Scan "A1" "Dock" 9) dock_db))
                (mkCount 1 1 "Dock" 5 7 "DRAFT" 100) [] eq_refl eq_refl)
      as (_ & _ & E).
    exact E.
Defined.

(** ** Updates and the review list *)

Lemma in_insert_desc x y l : In x (insert_desc y l) <-> x = y \/ In x l.
Proof.
  induction l as [|z l IH]; simpl.
  - intuition.
  - destruct (scanned_at (fst z) <? scanned_at (fst y)); simpl.
    + intuition.
    + rewrite IH. intuition.
Qed.

Lemma in_order_by x l : In x (order_by_scanned_at_desc l) <-> In x l.
Proof.
  unfold order_by_scanned_at_desc.
  induction l as [|y l IH]; simpl; [tauto|].
  rewrite in_insert_desc, IH. intuition.
Qed.

Lemma in_join_products ps cs c p :
  In (c, p) (join_products ps cs) -> In c cs.
Proof.
  unfold join_products. intros H. apply in_flat_map in H.
  destruct H as (c' & Hc' & H). apply in_map_iff in H.
  destruct H as (p' & [= <- <-] & _). exact Hc'.
Qed.

(** Every row of the review list shows a DRAFT row of the location. *)
Lemma review_rows loc d v :
  In v (fst (select_review loc d)) ->
  exists c, In c (inventory_counts d) /\ draft_at loc c = true /\
            rv_id v = id c /\ rv_quantity v = quantity c.
Proof.
  unfold select_review. simpl. intros H. apply in_map_iff in H.
  destruct H as ([c p] & <- & H). apply (proj1 (in_order_by _ _)) in H.
  apply in_join_products in H. apply filter_In in H.
  exists c. simpl. tauto.
Qed.

Lemma serve_review_healthy now loc d :
  serve healthy now (Review loc) d = (ReviewOk (fst (select_review loc d)), d).
Proof. reflexivity. Qed.

(** C5, as the handler has it: an update whose id matches no row of
    [inventory_counts] leaves the database as it was and still answers
    success; it answers 500 "Update failed" when its one statement fails, and
    404 never. *)
Theorem update_unknown_id fails now i q d :
  (forall r, In r (inventory_counts d) -> id r <> i) ->
  serve fails now (Update i q) d =
    (if fails 0%nat then Status500 "Update failed" else UpdateOk, d).
Proof.
  intros Hno. rewrite serve_update. destruct (fails 0%nat); [reflexivity|].
  f_equal.
  assert (E : filter (fun r => id r =? i) (inventory_counts d) = []).
  { apply filter_nil_existsb.
    destruct (existsb _ (inventory_counts d)) eqn:X; [|reflexivity].
    apply existsb_exists in X. destruct X as (r & Hr & Hi).
    apply Z.eqb_eq in Hi. destruct (Hno r Hr Hi). }
  unfold effect. destruct (q <=? 0); simpl.
  - rewrite filter_none by exact E. apply with_counts_same.
  - rewrite map_id_when by exact E. apply with_counts_same.
Qed.

Lemma update_unknown_id_witness :
  (forall r, In r (inventory_counts dock_db) -> id r <> 42) /\
  serve healthy 0 (Update 42 5) dock_db = (UpdateOk, dock_db).
Proof.
  assert (H : forall r, In r (inventory_counts dock_db) -> id r <> 42).
  { intros r [<-|[<-|[<-|[]]]]; discriminate. }
  split; [exact H|].
  apply (@update_unknown_id healthy 0 42 5 dock_db H).
Defined.

(** The claim C5 fails on the handler: draft id 42 does not exist in
    [dock_db], no step fails, and the update is answered with success. *)
Lemma missing_draft_update_answers_success :
  existsb (fun r => id r =? 42) (inventory_counts dock_db) = false /\
  fst (serve healthy 0 (Update 42 5) dock_db) = UpdateOk /\
  fst (serve healthy 0 (Update 42 0) dock_db) = UpdateOk.
Proof. repeat split. Qed.

(** C6: an update of id [i], the id of a row [r], is answered with success
    when its statement does not fail, and whenever it is answered with
    success
    - for [q <= 0] it has deleted every row of that id and no other, so that
      no review list shows id [i] any more;
    - for [q > 0] it has kept every row in its place and set the quantity of
      the rows of id [i] to [q], all their other fields and all other rows
      being as before. *)
Theorem update_deletes_or_overwrites fails now i q d r :
  In r (inventory_counts d) -> id r = i ->
  (fails 0%nat = false -> fst (serve fails now (Update i q) d) = UpdateOk) /\
  (forall d',
      serve fails now (Update i q) d = (UpdateOk, d') ->
      (q <= 0 ->
         inventory_counts d' =
           filter (fun x => negb (id x =? i)) (inventory_counts d) /\
         (forall x, In x (inventory_counts d') -> id x <> i) /\
         (forall loc, exists rows,
             serve healthy now (Review loc) d' = (ReviewOk rows, d') /\
             forall v, In v rows -> rv_id v <> i)) /\
      (q > 0 ->
         inventory_counts d' =
           map (fun x => if id x =? i then set_quantity q x else x)
               (inventory_counts d) /\
         In (set_quantity q r) (inventory_counts d') /\
         quantity (set_quantity q r) = q)).
Proof.
  intros Hin Hid. rewrite serve_update. split.
  { intros ->. reflexivity. }
  intros d' Hs.
  destruct (fails 0%nat); [discriminate|]. injection Hs as <-.
  unfold effect. split; intros Hq.
  - apply Z.leb_le in Hq. rewrite Hq. simpl.
    assert (Hgone : forall x,
               In x (filter (fun x => negb (id x =? i)) (inventory_counts d)) ->
               id x <> i).
    { intros x Hx. apply filter_In in Hx. destruct Hx as [_ Hx].
      apply negb_true_iff, Z.eqb_neq in Hx. exact Hx. }
    split; [reflexivity|]. split; [exact Hgone|].
    intros loc. eexists. split; [apply serve_review_healthy|].
    intros v Hv. apply review_rows in Hv.
    destruct Hv as (c & Hc & _ & -> & _). apply Hgone. exact Hc.
  - assert (Hq' : (q <=? 0) = false) by (apply Z.leb_gt; lia).
    rewrite Hq'. simpl. split; [reflexivity|]. split; [|reflexivity].
    apply in_map_iff. exists r. split; [|exact Hin].
    rewrite Hid, Z.eqb_refl. reflexivity.
Qed.

Lemma update_deletes_or_overwrites_witness :
  inventory_counts (snd (serve healthy 0 (Update 2 0) dock_db)) =
    [ mkCount 1 1 "Dock" 5 7 "DRAFT" 100; mkCount 3 1 "Aisle 1" 4 8 "DRAFT" 102 ] /\
  inventory_counts (snd (serve healthy 0 (Update 2 9) dock_db)) =
    [ mkCount 1 1 "Dock" 5 7 "DRAFT" 100; mkCount 2 2 "Dock" 9 7 "DRAFT" 101;
      mkCount 3 1 "Aisle 1" 4 8 "DRAFT" 102 ].
Proof.
  assert (R : In (mkCount 2 2 "Dock" 3 7 "DRAFT" 101) (inventory_counts dock_db))
    by (simpl; auto).
  split.
  - destruct (@update_deletes_or_overwrites healthy 0 2 0 dock_db _ R eq_refl)
      as [_ H].
    destruct (H (snd (serve healthy 0 (Update 2 0) dock_db)) eq_refl) as [D _].
    destruct (D ltac:(lia)) as (E & _). rewrite E. reflexivity.
  - destruct (@update_deletes_or_overwrites healthy 0 2 9 dock_db _ R eq_refl)
      as [_ H].
    destruct (H (snd (serve healthy 0 (Update 2 9) dock_db)) eq_refl) as [_ O].
    destruct (O ltac:(lia)) as (E & _). rewrite E. reflexivity.
Defined.

(** ** Two sessions, run

    Barcode A1 scanned twice at the dock, corrected to 7 and committed: one
    draft promoted, stock 7 and 7, no draft left.  Then two products scanned
    once each and committed: two drafts promoted. *)
Example dock_scenario :
  let counted :=
    serve_all [ mkCall healthy 100 (Scan "A1" "Dock" 7);
                mkCall healthy 101 (Scan "A1" "Dock" 7);
                mkCall healthy 102 (Update 1 7) ] empty_db in
  inventory_counts counted = [ mkCount 1 1 "Dock" 7 7 "DRAFT" 100 ] /\
  fst (serve healthy 103 (Commit "Dock") counted) = CommitOk 1 /\
  stock_levels (snd (serve healthy 103 (Commit "Dock") counted)) =
    [ mkStock 1 "Dock" 7 7 ] /\
  inventory_counts (snd (serve healthy 103 (Commit "Dock") counted)) = [].
Proof. repeat split. Qed.

Example two_products_scenario :
  let counted :=
    serve_all [ mkCall healthy 100 (Scan "A1" "Dock" 7);
                mkCall healthy 101 (Scan "B2" "Dock" 8) ] empty_db in
  fst (serve healthy 102 (Commit "Dock") counted) = CommitOk 2 /\
  stock_levels (snd (serve healthy 102 (Commit "Dock") counted)) =
    [ mkStock 1 "Dock" 1 1; mkStock 2 "Dock" 1 1 ] /\
  fst (serve healthy 103 (Review "Dock")
         (snd (serve healthy 102 (Commit "Dock") counted))) = ReviewOk [].
Proof. repeat split. Qed.

(** ** Beyond one request at a time

    The theorems above serve requests one after the other.  The scan handler
    issues its SELECT and its INSERT as separate autocommit statements, so two
    scans of the same pair whose SELECTs both run before either INSERT each
    find no draft and each insert one: the resulting table has two DRAFT rows
    for the pair. *)
Remark overlapping_scans_insert_twice :
  let after_first := snd (insert_draft 1 "Dock" 7 100 empty_db) in
  let after_both := snd (insert_draft 1 "Dock" 8 101 after_first) in
  fst (select_draft_ids 1 "Dock" empty_db) = [] /\
  draft_unique empty_db /\
  filter (draft_of 1 "Dock") (inventory_counts after_both) =
    [ mkCount 1 1 "Dock" 1 7 "DRAFT" 100; mkCount 2 1 "Dock" 1 8 "DRAFT" 101 ] /\
  ~ draft_unique after_both.
Proof. repeat split. discriminate. Qed.

(* ================================================================== *)
(** * Further properties of the handlers *)

(** ** Failure and what stays untouched *)

(** X1: whatever the request and whichever steps fail, a response that does
    not report success (404, 500 or none at all) comes with the database
    exactly as it was. *)
Theorem failed_request_changes_nothing fails now r d :
  is_success (fst (serve fails now r d)) = false ->
  snd (serve fails now r d) = d.
Proof.
  destruct r as [barcode loc uid|loc|i q|loc].
  - rewrite serve_scan. destruct (fails 0%nat); [reflexivity|].
    destruct (fst (select_product_by_sku barcode d)); [reflexivity|].
    destruct (fails 1%nat); [reflexivity|].
    destruct (fails 2%nat); [reflexivity | discriminate].
  - intros _. apply serve_review.
  - rewrite serve_update. destruct (fails 0%nat); [reflexivity | discriminate].
  - destruct (serve_commit fails now loc d) as [[H _]|(r & H & _)];
      rewrite H; [discriminate | reflexivity].
Qed.

Lemma failed_request_changes_nothing_witness :
  is_success (fst (serve (fails_at 2) 0 (Scan "A1" "Dock" 7) dock_db)) = false /\
  snd (serve (fails_at 2) 0 (Scan "A1" "Dock" 7) dock_db) = dock_db.
Proof.
  assert (H : is_success (fst (serve (fails_at 2) 0 (Scan "A1" "Dock" 7) dock_db))
              = false) by reflexivity.
  split; [exact H|].
  apply (@failed_request_changes_nothing (fails_at 2) 0 _ dock_db H).
Defined.

(** X2: a scan of a barcode that is the [sku] of no product writes nothing:
    it answers 404 "Product not found", or 500 "Scan failed" when the product
    lookup itself fails. *)
Theorem scan_unknown_barcode fails now barcode loc uid d :
  (forall p, In p (products d) -> sku p <> barcode) ->
  serve fails now (Scan barcode loc uid) d =
    (if fails 0%nat then Status500 "Scan failed"
     else Status404 "Product not found", d).
Proof.
  intros Hno. rewrite serve_scan. destruct (fails 0%nat); [reflexivity|].
  assert (E : fst (select_product_by_sku barcode d) = []).
  { unfold select_product_by_sku. simpl. apply filter_nil_existsb.
    destruct (existsb _ (products d)) eqn:X; [|reflexivity].
    apply existsb_exists in X. destruct X as (p & Hp & Hs).
    apply String.eqb_eq in Hs. destruct (Hno p Hp Hs). }
  now rewrite E.
Qed.

Lemma scan_unknown_barcode_witness :
  (forall p, In p (products dock_db) -> sku p <> "ZZ9") /\
  serve healthy 0 (Scan "ZZ9" "Dock" 7) dock_db =
    (Status404 "Product not found", dock_db).
Proof.
  assert (H : forall p, In p (products dock_db) -> sku p <> "ZZ9").
  { intros p [<-|[<-|[]]]; discriminate. }
  split; [exact H|].
  apply (@scan_unknown_barcode healthy 0 "ZZ9" "Dock" 7 dock_db H).
Defined.

Lemma fold_upsert_rest loc items :
  forall t,
    locations (fold_left (apply_upsert loc) items t) = locations t /\
    products (fold_left (apply_upsert loc) items t) = products t /\
    id_seq (fold_left (apply_upsert loc) items t) = id_seq t.
Proof.
  induction items as [|item rest IH]; intros t; simpl; [auto|].
  destruct (IH (apply_upsert loc t item)) as (-> & -> & ->).
  destruct (apply_upsert_rest loc t item) as (-> & -> & _ & ->). auto.
Qed.

Lemma effect_catalogue now r d :
  locations (effect now r d) = locations d /\
  products (effect now r d) = products d /\
  id_seq d <= id_seq (effect now r d).
Proof.
  destruct r as [barcode loc uid|loc|i q|loc]; simpl.
  - destruct (filter _ (products d)); [repeat split; lia|].
    destruct (map id _); simpl; repeat split; lia.
  - repeat split; lia.
  - destruct (q <=? 0); simpl; repeat split; lia.
  - destruct (fold_upsert_rest loc (fst (select_drafts loc d)) d) as (L & P & I).
    unfold select_drafts in *. simpl in *. rewrite L, P, I. repeat split; lia.
Qed.

(** X3: no run of scans, reviews, updates and commits, failing or not, ever
    changes the product catalogue or the location directory, and the sequence
    that numbers the drafts never goes back. *)
Theorem catalogue_never_written calls :
  forall d,
    products (serve_all calls d) = products d /\
    locations (serve_all calls d) = locations d /\
    id_seq d <= id_seq (serve_all calls d).
Proof.
  induction calls as [|c cs IH]; intros d; simpl; [repeat split; lia|].
  destruct (IH (snd (serve (call_fails c) (call_now c) (call_request c) d)))
    as (P & L & I).
  change (fold_left _ cs ?x) with (serve_all cs x).
  rewrite P, L.
  destruct (serve_effect (call_fails c) (call_now c) (call_request c) d) as [E|E];
    rewrite E in *.
  - repeat split; lia.
  - destruct (effect_catalogue (call_now c) (call_request c) d) as (L' & P' & I').
    rewrite L', P'. repeat split; lia.
Qed.

(** X4: only commits write stock.  A run without a commit request leaves
    [stock_levels] exactly as it was. *)
Theorem only_commit_writes_stock calls :
  forall d,
    (forall c loc, In c calls -> call_request c <> Commit loc) ->
    stock_levels (serve_all calls d) = stock_levels d.
Proof.
  induction calls as [|c cs IH]; intros d Hno; simpl; [reflexivity|].
  change (fold_left _ cs ?x) with (serve_all cs x).
  rewrite IH by (intros c' loc Hc'; apply Hno; now right).
  destruct (serve_effect (call_fails c) (call_now c) (call_request c) d) as [E|E];
    rewrite E; [reflexivity|].
  pose proof (effect_stock (call_now c) (call_request c) d) as H.
  destruct (call_request c) eqn:R; try exact H.
  destruct (Hno c loc (or_introl eq_refl) R).
Qed.

Lemma only_commit_writes_stock_witness :
  stock_levels
    (serve_all [ mkCall healthy 1 (Scan "B2" "Dock" 7);
                 mkCall healthy 2 (Update 1 9);
                 mkCall healthy 3 (Review "Dock") ] dock_db) =
  [ mkStock 1 "Dock" 10 10 ].
Proof.
  apply (@only_commit_writes_stock _ dock_db).
  intros c loc [<-|[<-|[<-|[]]]]; discriminate.
Defined.

(** ** Updates *)

Lemma with_counts_twice d l1 l2 :
  with_counts (with_counts d l1) l2 = with_counts d l2.
Proof. reflexivity. Qed.

Lemma filter_idem A (f : A -> bool) (l : list A) :
  filter f (filter f l) = filter f l.
Proof.
  induction l as [|x l IH]; simpl; [reflexivity|].
  destruct (f x) eqn:E; simpl; [now rewrite E, IH | exact IH].
Qed.

Lemma filter_other_ids i (g : inventory_count -> inventory_count) l :
  (forall x, id (g x) = id x) ->
  filter (fun x => negb (id x =? i))
         (map (fun x => if id x =? i then g x else x) l) =
  filter (fun x => negb (id x =? i)) l.
Proof.
  intros Hg. apply filter_map_untouched.
  - intros x. destruct (id x =? i) eqn:E; [|now rewrite E].
    now rewrite Hg, E.
  - intros x Hx. apply negb_true_iff in Hx. now rewrite Hx.
Qed.

(** X5: an update of id [i], failing or not, leaves every row of another id
    as it was and where it was, and touches neither the stock table nor the
    draft numbering. *)
Theorem update_touches_one_id fails now i q d :
  filter (fun x => negb (id x =? i))
         (inventory_counts (snd (serve fails now (Update i q) d))) =
  filter (fun x => negb (id x =? i)) (inventory_counts d) /\
  stock_levels (snd (serve fails now (Update i q) d)) = stock_levels d /\
  id_seq (snd (serve fails now (Update i q) d)) = id_seq d.
Proof.
  rewrite serve_update. destruct (fails 0%nat); [auto|].
  unfold effect. destruct (q <=? 0); simpl.
  - rewrite filter_idem. auto.
  - rewrite (filter_other_ids i (set_quantity q)) by reflexivity. auto.
Qed.

(** X6: two updates of the same id in a row, neither failing.  When the
    first deletes ([q1 <= 0]) the second finds nothing to do; otherwise the
    second alone decides, as if the first had never been made. *)
Theorem update_last_write_wins now1 now2 i q1 q2 d :
  snd (serve healthy now2 (Update i q2)
         (snd (serve healthy now1 (Update i q1) d))) =
  if q1 <=? 0
  then snd (serve healthy now1 (Update i q1) d)
  else snd (serve healthy now2 (Update i q2) d).
Proof.
  rewrite !serve_update. simpl. unfold effect.
  destruct (q1 <=? 0) eqn:Q1; destruct (q2 <=? 0) eqn:Q2; simpl;
    rewrite with_counts_twice; f_equal.
  - apply filter_idem.
  - apply map_id_when. apply filter_filter_negb.
  - apply (filter_other_ids i (set_quantity q1)). reflexivity.
  - rewrite map_map. apply map_ext. intros x.
    destruct (id x =? i) eqn:E; simpl; now rewrite E.
Qed.

(** ** Commits *)

Lemma serve_healthy_commit now loc d :
  serve healthy now (Commit loc) d =
    (CommitOk (List.length (fst (select_drafts loc d))), promote loc d).
Proof.
  destruct (serve_commit healthy now loc d) as [[H _]|(r & _ & _ & k & _ & F)];
    [exact H | discriminate F].
Qed.

Lemma commit_ok fails now loc d c d' :
  serve fails now (Commit loc) d = (CommitOk c, d') -> d' = promote loc d.
Proof.
  intros Hs.
  destruct (serve_commit fails now loc d) as [[H _]|(r & H & [->|[-> _]] & _)];
    rewrite H in Hs; try discriminate.
  now injection Hs.
Qed.

Lemma filter_filter_implied A (f g : A -> bool) (l : list A) :
  (forall x, f x = true -> g x = true) ->
  filter f (filter g l) = filter f l.
Proof.
  intros H. induction l as [|x l IH]; simpl; [reflexivity|].
  destruct (g x) eqn:G; simpl.
  - now rewrite IH.
  - destruct (f x) eqn:F; [|exact IH]. rewrite (H x F) in G. discriminate.
Qed.

Lemma filter_comm A (f g : A -> bool) (l : list A) :
  filter f (filter g l) = filter g (filter f l).
Proof.
  induction l as [|x l IH]; simpl; [reflexivity|].
  destruct (g x) eqn:G; destruct (f x) eqn:F; simpl;
    rewrite ?G, ?F, IH; reflexivity.
Qed.

Lemma draft_at_other loc loc' r :
  loc' <> loc -> draft_at loc' r = true -> negb (draft_at loc r) = true.
Proof.
  unfold draft_at. intros Hne H. apply andb_true_iff in H. destruct H as [H _].
  apply String.eqb_eq in H. apply negb_true_iff.
  destruct (String.eqb (location r) loc) eqn:E; [|reflexivity].
  apply String.eqb_eq in E. congruence.
Qed.

(** X7: a successful commit of [loc] removes the DRAFT rows of [loc] and
    nothing else: the other rows stay in their order, so the drafts of every
    other location and all rows that are not DRAFT are as before. *)
Theorem commit_leaves_other_drafts fails now loc d c d' :
  serve fails now (Commit loc) d = (CommitOk c, d') ->
  inventory_counts d' =
    filter (fun r => negb (draft_at loc r)) (inventory_counts d) /\
  (forall loc', loc' <> loc ->
     filter (draft_at loc') (inventory_counts d') =
     filter (draft_at loc') (inventory_counts d)) /\
  filter (fun r => negb (is_draft r)) (inventory_counts d') =
  filter (fun r => negb (is_draft r)) (inventory_counts d).
Proof.
  intros Hs. apply commit_ok in Hs. subst d'. rewrite promote_counts.
  split; [reflexivity|]. split.
  - intros loc' Hne. apply filter_filter_implied.
    intros r. now apply draft_at_other.
  - apply filter_filter_implied. intros r Hr. unfold draft_at.
    apply negb_true_iff in Hr. rewrite Hr. now rewrite andb_false_r.
Qed.

Lemma commit_leaves_other_drafts_witness :
  inventory_counts (promote "Dock" dock_db) =
    [ mkCount 3 1 "Aisle 1" 4 8 "DRAFT" 102 ] /\
  filter (draft_at "Aisle 1") (inventory_counts (promote "Dock" dock_db)) =
  filter (draft_at "Aisle 1") (inventory_counts dock_db).
Proof.
  assert (S : serve healthy 0 (Commit "Dock") dock_db =
              (CommitOk 2, promote "Dock" dock_db)) by reflexivity.
  destruct (commit_leaves_other_drafts _ _ _ _ S) as (E & O & _).
  split; [rewrite E; reflexivity|].
  apply O. discriminate.
Defined.

(** X8: a successful commit of [loc] leaves the stock rows of every pair at
    another location, and of every product that has no draft at [loc], as
    they were. *)
Theorem commit_leaves_other_stock fails now loc d c d' p loc' :
  serve fails now (Commit loc) d = (CommitOk c, d') ->
  loc' <> loc \/ filter (draft_of p loc) (inventory_counts d) = [] ->
  filter (stock_of p loc') (stock_levels d') =
  filter (stock_of p loc') (stock_levels d).
Proof.
  intros Hs Hout. apply commit_ok in Hs. subst d'. rewrite promote_stock.
  apply fold_upsert_other. intros q Hq Heq.
  destruct Hout as [Hne|Hnone]; [contradiction|].
  unfold select_drafts in Hq. simpl in Hq. apply in_map_iff in Hq.
  destruct Hq as (r & [= Hp _] & Hr). apply filter_In in Hr.
  destruct Hr as [Hin Hat].
  assert (Hd : In r (filter (draft_of p loc) (inventory_counts d))).
  { apply filter_In. split; [exact Hin|].
    rewrite draft_of_at, Hat, Hp, Z.eqb_refl. reflexivity. }
  rewrite Hnone in Hd. destruct Hd.
Qed.

Lemma commit_leaves_other_stock_witness :
  filter (stock_of 1 "Dock") (stock_levels (promote "Aisle 1" dock_db)) =
    [ mkStock 1 "Dock" 10 10 ].
Proof.
  assert (S : serve healthy 0 (Commit "Aisle 1") dock_db =
              (CommitOk 1, promote "Aisle 1" dock_db)) by reflexivity.
  rewrite (@commit_leaves_other_stock _ _ _ _ _ _ 1 "Dock" S).
  - reflexivity.
  - left. discriminate.
Defined.

Lemma select_drafts_length loc d :
  List.length (fst (select_drafts loc d)) =
  List.length (filter (draft_at loc) (inventory_counts d)).
Proof. unfold select_drafts. simpl. apply length_map. Qed.

(** X9: committing again right after a successful commit of the same
    location succeeds with count 0 and changes nothing. *)
Theorem commit_twice_is_once fails now now' loc d c d' :
  serve fails now (Commit loc) d = (CommitOk c, d') ->
  serve healthy now' (Commit loc) d' = (CommitOk 0, d').
Proof.
  intros Hs. apply commit_ok in Hs. subst d'.
  assert (E : filter (draft_at loc) (inventory_counts (promote loc d)) = []).
  { rewrite promote_counts. apply filter_filter_negb. }
  rewrite serve_healthy_commit, (promote_no_drafts _ _ E).
  now rewrite select_drafts_length, E.
Qed.

Lemma commit_twice_is_once_witness :
  serve healthy 1 (Commit "Dock") (promote "Dock" dock_db) =
    (CommitOk 0, promote "Dock" dock_db).
Proof.
  apply (@commit_twice_is_once healthy 0 1 "Dock" dock_db 2). reflexivity.
Defined.

(** The rows a loop leaves for a pair depend on the rows the pair had, not on
    the rest of the stock table. *)
Lemma fold_upsert_local loc items p :
  forall t t',
    filter (stock_of p loc) (stock_levels t) =
    filter (stock_of p loc) (stock_levels t') ->
    filter (stock_of p loc) (stock_levels (fold_left (apply_upsert loc) items t)) =
    filter (stock_of p loc) (stock_levels (fold_left (apply_upsert loc) items t')).
Proof.
  induction items as [|[p0 q0] rest IH]; intros t t' H; simpl; [exact H|].
  apply IH. destruct (Z.eq_dec p0 p) as [->|Hne].
  - rewrite !apply_upsert_same. now rewrite H.
  - rewrite !apply_upsert_other by congruence. exact H.
Qed.

Lemma select_drafts_after_other loc loc' d :
  loc' <> loc ->
  fst (select_drafts loc' (promote loc d)) = fst (select_drafts loc' d).
Proof.
  intros Hne. unfold select_drafts. simpl. rewrite fold_upsert_counts.
  f_equal. apply filter_filter_implied. intros r. now apply draft_at_other.
Qed.

Lemma promote_other_pair loc d p loc' :
  loc' <> loc ->
  filter (stock_of p loc') (stock_levels (promote loc d)) =
  filter (stock_of p loc') (stock_levels d).
Proof.
  intros Hne. rewrite promote_stock. apply fold_upsert_other. auto.
Qed.

Lemma promote_after_other loc loc' d p :
  loc' <> loc ->
  filter (stock_of p loc') (stock_levels (promote loc' (promote loc d))) =
  filter (stock_of p loc') (stock_levels (promote loc' d)).
Proof.
  intros Hne. rewrite !promote_stock, select_drafts_after_other by exact Hne.
  apply fold_upsert_local. now apply promote_other_pair.
Qed.

(** X10: commits of two different locations, neither failing, can be made
    in either order: the draft table comes out the same, and so do the stock
    rows of every (product, location) pair. *)
Theorem commits_commute now1 now2 loc1 loc2 d :
  loc1 <> loc2 ->
  let d12 := snd (serve healthy now2 (Commit loc2)
                    (snd (serve healthy now1 (Commit loc1) d))) in
  let d21 := snd (serve healthy now1 (Commit loc1)
                    (snd (serve healthy now2 (Commit loc2) d))) in
  inventory_counts d12 = inventory_counts d21 /\
  forall p loc,
    filter (stock_of p loc) (stock_levels d12) =
    filter (stock_of p loc) (stock_levels d21).
Proof.
  intros Hne d12 d21. subst d12 d21.
  rewrite !serve_healthy_commit. cbn [snd]. split.
  - rewrite !promote_counts. apply filter_comm.
  - intros p loc.
    destruct (string_dec loc loc1) as [->|H1].
    + rewrite (@promote_other_pair loc2 (promote loc1 d) p loc1 Hne).
      symmetry. apply promote_after_other. exact Hne.
    + rewrite (@promote_other_pair loc1 (promote loc2 d) p loc H1).
      destruct (string_dec loc loc2) as [->|H2].
      * apply promote_after_other. congruence.
      * rewrite (@promote_other_pair loc2 (promote loc1 d) p loc H2).
        rewrite (@promote_other_pair loc1 d p loc H1).
        rewrite (@promote_other_pair loc2 d p loc H2). reflexivity.
Qed.

Lemma commits_commute_witness :
  stock_levels
    (snd (serve healthy 2 (Commit "Aisle 1")
            (snd (serve healthy 1 (Commit "Dock") dock_db)))) =
    [ mkStock 1 "Dock" 5 5; mkStock 2 "Dock" 3 3; mkStock 1 "Aisle 1" 4 4 ] /\
  stock_levels
    (snd (serve healthy 1 (Commit "Dock")
            (snd (serve healthy 2 (Commit "Aisle 1") dock_db)))) =
    [ mkStock 1 "Dock" 5 5; mkStock 1 "Aisle 1" 4 4; mkStock 2 "Dock" 3 3 ] /\
  forall p loc,
    filter (stock_of p loc)
      (stock_levels
         (snd (serve healthy 2 (Commit "Aisle 1")
                 (snd (serve healthy 1 (Commit "Dock") dock_db))))) =
    filter (stock_of p loc)
      (stock_levels
         (snd (serve healthy 1 (Commit "Dock")
                 (snd (serve healthy 2 (Commit "Aisle 1") dock_db))))).
Proof.
  split; [reflexivity|]. split; [reflexivity|].
  apply (@commits_commute 1 2 "Dock" "Aisle 1" dock_db). discriminate.
Defined.

Lemma select_drafts_app loc d before r after :
  filter (draft_at loc) (inventory_counts d) = (before ++ r :: after)%list ->
  fst (select_drafts loc d) =
    (map (fun r => (ic_product_id r, quantity r)) before ++
     (ic_product_id r, quantity r) ::
     map (fun r => (ic_product_id r, quantity r)) after)%list.
Proof.
  intros E. unfold select_drafts. simpl. rewrite E, map_app. reflexivity.
Qed.

(** X11: a successful commit where a pair has several DRAFT rows (the state
    two overlapping scans can leave): the rows are upserted in storage order,
    so the quantity of the last one is what the pair's stock rows hold. *)
Theorem last_draft_wins fails now loc d c d' before r after :
  serve fails now (Commit loc) d = (CommitOk c, d') ->
  filter (draft_at loc) (inventory_counts d) = (before ++ r :: after)%list ->
  (forall x, In x after -> ic_product_id x <> ic_product_id r) ->
  filter (stock_of (ic_product_id r) loc) (stock_levels d') <> [] /\
  forall s, In s (stock_levels d') ->
            stock_of (ic_product_id r) loc s = true ->
            on_hand s = quantity r /\ available s = quantity r.
Proof.
  intros Hs E Hlast. apply commit_ok in Hs. subst d'.
  rewrite promote_stock, (select_drafts_app _ _ _ _ _ E), fold_left_app. simpl.
  set (t1 := fold_left (apply_upsert loc) _ d).
  assert (Hp : filter (stock_of (ic_product_id r) loc)
                 (stock_levels
                    (fold_left (apply_upsert loc)
                       (map (fun r => (ic_product_id r, quantity r)) after)
                       (apply_upsert loc t1 (ic_product_id r, quantity r)))) =
               match filter (stock_of (ic_product_id r) loc) (stock_levels t1) with
               | [] => [ {| sl_product_id := ic_product_id r; sl_location := loc;
                            on_hand := quantity r; available := quantity r |} ]
               | old => map (set_levels (quantity r)) old
               end).
  { rewrite fold_upsert_other; [apply apply_upsert_same|].
    intros q Hq. exfalso. apply in_map_iff in Hq.
    destruct Hq as (x & [= Hx _] & Hin). now apply (Hlast x Hin). }
  split.
  - rewrite Hp. destruct (filter _ (stock_levels t1)); discriminate.
  - intros s Hin Hk.
    assert (Hf : In s (filter (stock_of (ic_product_id r) loc)
                         (stock_levels
                            (fold_left (apply_upsert loc)
                               (map (fun r => (ic_product_id r, quantity r)) after)
                               (apply_upsert loc t1 (ic_product_id r, quantity r))))))
      by (apply filter_In; now split).
    rewrite Hp in Hf. destruct (filter _ (stock_levels t1)).
    + destruct Hf as [<-|[]]. now split.
    + now apply forall_set_levels in Hf.
Qed.

Lemma last_draft_wins_witness :
  let doubled :=
    with_counts empty_db
      [ mkCount 1 1 "Dock" 4 7 "DRAFT" 100; mkCount 2 1 "Dock" 2 8 "DRAFT" 101 ] in
  stock_levels (snd (serve healthy 0 (Commit "Dock") doubled)) =
    [ mkStock 1 "Dock" 2 2 ] /\
  forall s, In s (stock_levels (snd (serve healthy 0 (Commit "Dock") doubled))) ->
            stock_of 1 "Dock" s = true -> on_hand s = 2 /\ available s = 2.
Proof.
  intros doubled. split; [reflexivity|].
  apply (@last_draft_wins healthy 0 "Dock" doubled 2 _
           [ mkCount 1 1 "Dock" 4 7 "DRAFT" 100 ]
           (mkCount 2 1 "Dock" 2 8 "DRAFT" 101) []).
  - reflexivity.
  - reflexivity.
  - intros x [].
Defined.

(** ** Quantities *)

Lemma apply_upsert_written_qty loc t item s :
  In s (stock_levels (apply_upsert loc t item)) ->
  In s (stock_levels t) \/ on_hand s = snd item.
Proof.
  rewrite apply_upsert_stock.
  destruct (filter (stock_of (fst item) loc) (stock_levels t)).
  - intros H. apply in_app_or in H. destruct H as [H|[<-|[]]]; [now left | now right].
  - intros H. apply in_map_iff in H. destruct H as (x & <- & Hx).
    destruct (stock_of (fst item) loc x); [now right | now left].
Qed.

Lemma fold_upsert_written_pos loc items s :
  forall t,
    (forall item, In item items -> 0 < snd item) ->
    In s (stock_levels (fold_left (apply_upsert loc) items t)) ->
    In s (stock_levels t) \/ 0 < on_hand s.
Proof.
  induction items as [|item rest IH]; intros t Hpos; simpl; [now left|].
  intros H. apply IH in H; [|intros it Hit; apply Hpos; now right].
  destruct H as [H|H]; [|now right].
  apply apply_upsert_written_qty in H. destruct H as [H|H]; [now left|].
  right. rewrite H. apply Hpos. now left.
Qed.

Lemma effect_positive now r d :
  Forall (fun c => 0 < quantity c) (inventory_counts d) ->
  Forall (fun c => 0 < quantity c) (inventory_counts (effect now r d)) /\
  forall s, In s (stock_levels (effect now r d)) ->
            In s (stock_levels d) \/ 0 < on_hand s.
Proof.
  intros Hpos. rewrite Forall_forall in Hpos. split.
  - apply Forall_forall. intros x Hx.
    destruct r as [barcode loc uid|loc|i q|loc]; simpl in Hx.
    + destruct (filter _ (products d)); [now apply Hpos|].
      destruct (map id _) as [|i ids]; simpl in Hx.
      * apply in_app_or in Hx. destruct Hx as [Hx|[<-|[]]];
          [now apply Hpos | simpl; lia].
      * apply in_map_iff in Hx. destruct Hx as (y & <- & Hy).
        specialize (Hpos y Hy). destruct (id y =? i); simpl; lia.
    + now apply Hpos.
    + destruct (q <=? 0) eqn:Q; simpl in Hx.
      * apply filter_In in Hx. now apply Hpos.
      * apply in_map_iff in Hx. destruct Hx as (y & <- & Hy).
        specialize (Hpos y Hy). apply Z.leb_gt in Q.
        destruct (id y =? i); simpl; lia.
    + rewrite fold_upsert_counts in Hx. apply filter_In in Hx. now apply Hpos.
  - intros s Hs. pose proof (effect_stock now r d) as E.
    destruct r as [barcode loc uid|loc|i q|loc]; rewrite E in Hs; try (now left).
    apply fold_upsert_written_pos in Hs; [exact Hs|].
    intros item Hit. unfold select_drafts in Hit. simpl in Hit.
    apply in_map_iff in Hit. destruct Hit as (y & <- & Hy).
    apply filter_In in Hy. simpl. apply Hpos. tauto.
Qed.

(** X12: as long as every update carries an integer quantity, as [Update]
    has it, no draft is stored with a quantity below 1.  From a draft table
    whose quantities are all positive, any run of such requests keeps them
    positive, and every stock row it leaves is a row of the initial table or
    has a positive [on_hand]. *)
Theorem quantities_stay_positive calls :
  forall d,
    Forall (fun c => 0 < quantity c) (inventory_counts d) ->
    Forall (fun c => 0 < quantity c) (inventory_counts (serve_all calls d)) /\
    forall s, In s (stock_levels (serve_all calls d)) ->
              In s (stock_levels d) \/ 0 < on_hand s.
Proof.
  induction calls as [|c cs IH]; intros d Hpos; simpl; [split; [exact Hpos | now left]|].
  change (fold_left _ cs ?x) with (serve_all cs x).
  destruct (serve_effect (call_fails c) (call_now c) (call_request c) d) as [E|E];
    rewrite E.
  - now apply IH.
  - destruct (effect_positive (call_now c) (call_request c) d Hpos) as [P1 S1].
    destruct (IH _ P1) as [P2 S2]. split; [exact P2|].
    intros s Hs. apply S2 in Hs. destruct Hs as [Hs|Hs]; [|now right].
    now apply S1.
Qed.

Lemma quantities_stay_positive_witness :
  Forall (fun c => 0 < quantity c) (inventory_counts dock_db) /\
  Forall (fun c => 0 < quantity c)
         (inventory_counts
            (serve_all [ mkCall healthy 1 (Update 1 (-3));
                         mkCall healthy 2 (Scan "A1" "Dock" 7) ] dock_db)).
Proof.
  assert (H : Forall (fun c => 0 < quantity c) (inventory_counts dock_db)).
  { repeat constructor. }
  split; [exact H|].
  apply (@quantities_stay_positive _ dock_db H).
Defined.

(** ** How the requests compose *)

Lemma promote_rest loc d :
  products (promote loc d) = products d /\ id_seq (promote loc d) = id_seq d.
Proof.
  unfold promote, delete_drafts. simpl.
  destruct (fold_upsert_rest loc (fst (select_drafts loc d)) d) as (_ & P & I).
  unfold select_drafts in *. simpl in *. now rewrite P, I.
Qed.

Lemma promote_pair_drafts loc d p :
  filter (draft_of p loc) (inventory_counts (promote loc d)) = [].
Proof.
  rewrite promote_counts. apply filter_nil_existsb.
  destruct (existsb _ _) eqn:X; [|reflexivity].
  apply existsb_exists in X. destruct X as (r & Hr & Hk).
  apply filter_In in Hr. destruct Hr as [_ Hn].
  rewrite draft_of_at in Hk. apply andb_true_iff in Hk. destruct Hk as [_ Hat].
  rewrite Hat in Hn. discriminate.
Qed.

(** X13: counting starts over after a commit.  The first scan of a product
    at a location that has just been committed creates a new draft of
    quantity 1, numbered by the sequence, whatever the product's count was
    before the commit. *)
Theorem scan_after_commit_starts_at_one
  fails now now' barcode loc uid d c d' p ps :
  fst (select_product_by_sku barcode d) = p :: ps ->
  serve fails now (Commit loc) d = (CommitOk c, d') ->
  fst (serve healthy now' (Scan barcode loc uid) d') = ScanOk p /\
  filter (draft_of (product_id p) loc)
         (inventory_counts (snd (serve healthy now' (Scan barcode loc uid) d'))) =
    [ mkCount (id_seq d) (product_id p) loc 1 uid "DRAFT" now' ].
Proof.
  intros Hp Hs. apply commit_ok in Hs. subst d'.
  destruct (promote_rest loc d) as [P I].
  assert (Hp' : fst (select_product_by_sku barcode (promote loc d)) = p :: ps).
  { unfold select_product_by_sku in *. simpl in *. now rewrite P. }
  rewrite (serve_scan_healthy now' barcode loc uid _ Hp').
  split; [reflexivity|]. cbn [snd].
  rewrite (scan_absent now' barcode loc uid _ Hp' (promote_pair_drafts loc d _)).
  cbn [snd insert_draft inventory_counts column_defaults fst].
  rewrite filter_app, promote_pair_drafts, I. simpl.
  now rewrite draft_of_new.
Qed.

Lemma scan_after_commit_starts_at_one_witness :
  filter (draft_of 1 "Dock")
         (inventory_counts
            (snd (serve healthy 9 (Scan "A1" "Dock" 8) (promote "Dock" dock_db)))) =
    [ mkCount 4 1 "Dock" 1 8 "DRAFT" 9 ].
Proof.
  assert (P : fst (select_product_by_sku "A1" dock_db) =
              [ mkProduct 1 "Widget" "A1" ]) by reflexivity.
  assert (S : serve healthy 0 (Commit "Dock") dock_db =
              (CommitOk 2, promote "Dock" dock_db)) by reflexivity.
  destruct (@scan_after_commit_starts_at_one healthy 0 9 "A1" "Dock" 8
              dock_db 2 _ _ _ P S) as [_ E].
  exact E.
Defined.

(** X14: a correction reaches the stock table.  From a database with at most
    one draft per pair, setting the draft [r] of location [loc] to [q > 0]
    and then committing [loc], neither failing, leaves the pair's stock rows
    at [q]: the former rows overwritten, or one new row. *)
Theorem update_then_commit now1 now2 loc q d r :
  draft_unique d ->
  In r (inventory_counts d) -> draft_at loc r = true -> 0 < q ->
  filter (stock_of (ic_product_id r) loc)
         (stock_levels
            (snd (serve healthy now2 (Commit loc)
                    (snd (serve healthy now1 (Update (id r) q) d))))) =
    match filter (stock_of (ic_product_id r) loc) (stock_levels d) with
    | [] => [ {| sl_product_id := ic_product_id r; sl_location := loc;
                 on_hand := q; available := q |} ]
    | old => map (set_levels q) old
    end.
Proof.
  intros Hu Hin Hat Hq.
  pose proof (serve_draft_unique healthy now1 (Update (id r) q) Hu) as Hu1.
  rewrite serve_update in *. cbn [healthy snd] in *.
  assert (Q : (q <=? 0) = false) by (apply Z.leb_gt; lia).
  unfold effect in *. rewrite Q in *.
  set (d1 := snd (update_quantity q (id r) d)) in *.
  rewrite serve_healthy_commit. cbn [snd]. rewrite promote_stock.
  change (stock_levels d) with (stock_levels d1).
  apply fold_upsert_pair; [now apply drafts_nodup|].
  unfold select_drafts. simpl.
  apply (in_map (fun r => (ic_product_id r, quantity r)) _ (set_quantity q r)).
  apply filter_In. split; [|exact Hat].
  apply in_map_iff. exists r. split; [|exact Hin].
  now rewrite Z.eqb_refl.
Qed.

Lemma update_then_commit_witness :
  stock_levels
    (snd (serve healthy 2 (Commit "Dock")
            (snd (serve healthy 1 (Update 1 8) dock_db)))) =
    [ mkStock 1 "Dock" 8 8; mkStock 2 "Dock" 3 3 ] /\
  filter (stock_of 1 "Dock")
    (stock_levels
       (snd (serve healthy 2 (Commit "Dock")
               (snd (serve healthy 1 (Update 1 8) dock_db))))) =
    [ mkStock 1 "Dock" 8 8 ].
Proof.
  split; [reflexivity|].
  apply (@update_then_commit 1 2 "Dock" 8 dock_db (mkCount 1 1 "Dock" 5 7 "DRAFT" 100)).
  - reflexivity.
  - simpl. auto.
  - reflexivity.
  - lia.
Defined.

Lemma nodup_map_inj A B (f : A -> B) (l : list A) x y :
  NoDup (map f l) -> In x l -> In y l -> f x = f y -> x = y.
Proof.
  induction l as [|a l IH]; simpl; [contradiction|].
  intros Hnd Hx Hy E. inversion Hnd as [|? ? Hnot Hnd']; subst.
  destruct Hx as [->|Hx]; destruct Hy as [->|Hy]; auto.
  - exfalso. apply Hnot. rewrite E. now apply in_map.
  - exfalso. apply Hnot. rewrite <- E. now apply in_map.
Qed.

Lemma filter_map_untouched_in A (f : A -> bool) (g : A -> A) (l : list A) :
  (forall x, f (g x) = f x) ->
  (forall x, In x l -> f x = true -> g x = x) ->
  filter f (map g l) = filter f l.
Proof.
  intros Hg. induction l as [|x l IH]; intros Hfix; simpl; [reflexivity|].
  rewrite Hg. rewrite IH by (intros y Hy; apply Hfix; now right).
  destruct (f x) eqn:E; [|reflexivity].
  now rewrite (Hfix x (or_introl eq_refl) E).
Qed.

(** X15: when no two rows of [inventory_counts] share an [id], a scan of
    product [p] at [loc], failing or not, leaves the drafts of every other
    (product, location) pair exactly as they were. *)
Theorem scan_leaves_other_pairs fails now barcode loc uid d p ps p' loc' :
  fst (select_product_by_sku barcode d) = p :: ps ->
  NoDup (map id (inventory_counts d)) ->
  (p', loc') <> (product_id p, loc) ->
  filter (draft_of p' loc')
         (inventory_counts (snd (serve fails now (Scan barcode loc uid) d))) =
  filter (draft_of p' loc') (inventory_counts d).
Proof.
  intros Hp Hnd Hne.
  destruct (serve_effect fails now (Scan barcode loc uid) d) as [->| ->];
    [reflexivity|].
  destruct (filter (draft_of (product_id p) loc) (inventory_counts d))
    as [|r rest] eqn:E.
  - rewrite (scan_absent now barcode loc uid d Hp E). simpl.
    rewrite filter_app. simpl.
    destruct (draft_of p' loc' _) eqn:K; [|apply app_nil_r].
    apply draft_of_key in K. unfold draft_key in K. simpl in K. congruence.
  - rewrite (scan_existing now barcode loc uid d Hp E). simpl.
    apply filter_map_untouched_in; [intros x; apply draft_of_bump|].
    intros x Hx Hk. unfold bump. destruct (id x =? id r) eqn:I; [|reflexivity].
    apply Z.eqb_eq in I.
    assert (Hr : In r (filter (draft_of (product_id p) loc) (inventory_counts d)))
      by (rewrite E; now left).
    apply filter_In in Hr. destruct Hr as [Hr Hkr].
    assert (x = r) by (apply (nodup_map_inj id _ _ _ Hnd Hx Hr I)). subst x.
    apply draft_of_key in Hk. apply draft_of_key in Hkr. congruence.
Qed.

Lemma scan_leaves_other_pairs_witness :
  filter (draft_of 2 "Dock")
         (inventory_counts (snd (serve healthy 9 (Scan "A1" "Dock" 8) dock_db))) =
    [ mkCount 2 2 "Dock" 3 7 "DRAFT" 101 ].
Proof.
  assert (P : fst (select_product_by_sku "A1" dock_db) =
              [ mkProduct 1 "Widget" "A1" ]) by reflexivity.
  rewrite (@scan_leaves_other_pairs healthy 9 "A1" "Dock" 8 dock_db _ _ 2 "Dock" P).
  - reflexivity.
  - simpl. repeat constructor; simpl; intuition discriminate.
  - discriminate.
Defined.

(** ** The review list *)

Lemma in_join_products_iff ps cs c p :
  In (c, p) (join_products ps cs) <->
  In c cs /\ In p ps /\ ic_product_id c = product_id p.
Proof.
  unfold join_products. rewrite in_flat_map. split.
  - intros (c' & Hc' & H). apply in_map_iff in H.
    destruct H as (p' & [= <- <-] & Hp'). apply filter_In in Hp'.
    destruct Hp' as [Hp' E]. apply Z.eqb_eq in E. auto.
  - intros (Hc & Hp & E). exists c. split; [exact Hc|].
    apply in_map_iff. exists p. split; [reflexivity|].
    apply filter_In. split; [exact Hp | now apply Z.eqb_eq].
Qed.

Lemma insert_desc_perm x l : Permutation (x :: l) (insert_desc x l).
Proof.
  induction l as [|y l IH]; simpl; [apply Permutation_refl|].
  destruct (scanned_at (fst y) <? scanned_at (fst x)); [apply Permutation_refl|].
  eapply Permutation_trans; [apply perm_swap|]. now apply perm_skip.
Qed.

Lemma order_by_perm l : Permutation l (order_by_scanned_at_desc l).
Proof.
  unfold order_by_scanned_at_desc.
  induction l as [|x l IH]; simpl; [constructor|].
  eapply Permutation_trans; [apply perm_skip, IH | apply insert_desc_perm].
Qed.

Lemma map_join_products (f : inventory_count * product -> review_row) ps cs :
  map f (join_products ps cs) =
  flat_map
    (fun c => map (fun p => f (c, p))
                  (filter (fun p => ic_product_id c =? product_id p) ps))
    cs.
Proof.
  unfold join_products. induction cs as [|c cs IH]; simpl; [reflexivity|].
  now rewrite map_app, map_map, IH.
Qed.

(** X16: the review of [loc] never writes; it answers 500 "Fetch failed" when
    its query fails, and otherwise its lines are, up to their order, the
    DRAFT rows of [loc] joined with the catalogue: for each draft of [loc]
    and each product row of its [product_id] exactly one line, carrying the
    draft's id and quantity and the product's name and sku, and no other
    line.  A draft whose product is not in the catalogue has no line. *)
Theorem review_lists_catalogued_drafts fails now loc d :
  exists rows,
    serve fails now (Review loc) d =
      (if fails 0%nat then Status500 "Fetch failed" else ReviewOk rows, d) /\
    Permutation rows
      (flat_map
         (fun c =>
            map (fun p => mkReview (id c) (quantity c) (name p) (sku p))
                (filter (fun p => ic_product_id c =? product_id p) (products d)))
         (filter (draft_at loc) (inventory_counts d))) /\
    forall v,
      In v rows <->
      exists c p,
        In c (inventory_counts d) /\ draft_at loc c = true /\
        In p (products d) /\ ic_product_id c = product_id p /\
        v = mkReview (id c) (quantity c) (name p) (sku p).
Proof.
  exists (fst (select_review loc d)). split; [|split].
  - unfold serve, handler, review, try_catch, bind, query, ret. simpl.
    destruct (fails 0%nat); reflexivity.
  - unfold select_review. cbn [fst].
    rewrite <- (map_join_products
                  (fun cp => mkReview (id (fst cp)) (quantity (fst cp))
                                      (name (snd cp)) (sku (snd cp)))).
    apply Permutation_map, Permutation_sym, order_by_perm.
  - intros v. unfold select_review. simpl. rewrite in_map_iff. split.
    + intros ([c p] & <- & H). apply (proj1 (in_order_by _ _)) in H.
      apply in_join_products_iff in H. destruct H as (Hc & Hp & E).
      apply filter_In in Hc. exists c, p. simpl. tauto.
    + intros (c & p & Hc & Hat & Hp & E & ->). exists (c, p).
      split; [reflexivity|]. apply in_order_by. apply in_join_products_iff.
      repeat split; try assumption. apply filter_In. now split.
Qed.

Lemma insert_desc_sorted x l :
  StronglySorted newer_first l -> StronglySorted newer_first (insert_desc x l).
Proof.
  induction l as [|y l IH]; intros Hs; simpl.
  - repeat constructor.
  - inversion Hs as [|? ? Hs' Hall]; subst.
    destruct (scanned_at (fst y) <? scanned_at (fst x)) eqn:E.
    + apply Z.ltb_lt in E. constructor; [exact Hs|].
      constructor; [unfold newer_first; lia|].
      rewrite Forall_forall in *. intros z Hz. specialize (Hall z Hz).
      unfold newer_first in *. lia.
    + apply Z.ltb_ge in E. constructor; [now apply IH|].
      rewrite Forall_forall in *. intros z Hz.
      apply in_insert_desc in Hz. destruct Hz as [->|Hz]; [exact E | now apply Hall].
Qed.

Lemma order_by_sorted l :
  StronglySorted newer_first (order_by_scanned_at_desc l).
Proof.
  unfold order_by_scanned_at_desc.
  induction l as [|x l IH]; simpl; [constructor | now apply insert_desc_sorted].
Qed.

(** X17: the lines of a review are the joined rows rearranged, none lost and
    none repeated, so that no line comes before a line of a later
    [scanned_at]. *)
Theorem review_is_newest_first now loc d :
  exists joined,
    serve healthy now (Review loc) d =
      (ReviewOk (map (fun cp => mkReview (id (fst cp)) (quantity (fst cp))
                                         (name (snd cp)) (sku (snd cp)))
                     joined), d) /\
    Permutation
      (join_products (products d) (filter (draft_at loc) (inventory_counts d)))
      joined /\
    StronglySorted newer_first joined.
Proof.
  exists (order_by_scanned_at_desc
            (join_products (products d)
               (filter (draft_at loc) (inventory_counts d)))).
  split; [reflexivity|]. split; [apply order_by_perm | apply order_by_sorted].
Qed.

Lemma join_products_once ps cs :
  (forall c, In c cs ->
     List.length (filter (fun p => ic_product_id c =? product_id p) ps) = 1%nat) ->
  map fst (join_products ps cs) = cs.
Proof.
  unfold join_products. induction cs as [|c cs IH]; intros H; simpl; [reflexivity|].
  rewrite map_app, IH by (intros c' Hc'; apply H; now right).
  specialize (H c (or_introl eq_refl)).
  destruct (filter _ ps) as [|p [|p' l]]; simpl in H; try discriminate.
  reflexivity.
Qed.

(** X18: when every product drafted at [loc] has exactly one row in the
    catalogue, the review shows each draft of [loc] once, with its id and
    quantity, and the number of lines is the count a commit of [loc] then
    reports. *)
Theorem review_matches_commit_count now now' loc d :
  (forall c, In c (inventory_counts d) -> draft_at loc c = true ->
     List.length (filter (fun p => ic_product_id c =? product_id p) (products d))
     = 1%nat) ->
  exists rows,
    serve healthy now (Review loc) d = (ReviewOk rows, d) /\
    Permutation (map (fun v => (rv_id v, rv_quantity v)) rows)
                (map (fun c => (id c, quantity c))
                     (filter (draft_at loc) (inventory_counts d))) /\
    fst (serve healthy now' (Commit loc) d) = CommitOk (List.length rows).
Proof.
  intros Hcat. exists (fst (select_review loc d)).
  split; [reflexivity|].
  set (cs := filter (draft_at loc) (inventory_counts d)).
  assert (Hfst : map fst (join_products (products d) cs) = cs).
  { apply join_products_once. intros c Hc. apply filter_In in Hc.
    now apply Hcat. }
  assert (Hperm : Permutation
                    (map (fun v => (rv_id v, rv_quantity v)) (fst (select_review loc d)))
                    (map (fun c => (id c, quantity c)) cs)).
  { unfold select_review. cbn [fst]. fold cs. rewrite map_map. simpl.
    rewrite <- Hfst at 2. rewrite map_map.
    apply Permutation_map, Permutation_sym, order_by_perm. }
  split; [exact Hperm|].
  rewrite serve_healthy_commit. cbn [fst]. f_equal.
  rewrite select_drafts_length. fold cs.
  apply Permutation_length in Hperm. rewrite !length_map in Hperm.
  now symmetry.
Qed.

Lemma review_matches_commit_count_witness :
  fst (serve healthy 0 (Review "Dock") dock_db) =
    ReviewOk [ mkReview 2 3 "Gadget" "B2"; mkReview 1 5 "Widget" "A1" ] /\
  fst (serve healthy 1 (Commit "Dock") dock_db) = CommitOk 2.
Proof.
  assert (H : forall c, In c (inventory_counts dock_db) ->
                        draft_at "Dock" c = true ->
                        List.length
                          (filter (fun p => ic_product_id c =? product_id p)
                                  (products dock_db)) = 1%nat).
  { intros c [<-|[<-|[<-|[]]]] _; reflexivity. }
  destruct (@review_matches_commit_count 0 1 "Dock" dock_db H)
    as (rows & R & _ & C).
  split; [reflexivity|].
  rewrite C. f_equal.
  change rows with (match ReviewOk rows with ReviewOk l => l | _ => [] end).
  change (ReviewOk rows) with (fst (ReviewOk rows, dock_db)).
  rewrite <- R. reflexivity.
Defined.

(** X19: an empty review does not mean an empty commit.  From a database
    with at most one draft per pair, when none of the drafts of [loc] has its
    product in the catalogue, the review shows no line, yet a commit of [loc]
    promotes every one of them: it reports their number, removes them, and
    leaves each one's quantity in the stock rows of its pair, the former rows
    overwritten or one new row. *)
Theorem uncatalogued_drafts_are_committed_unseen now now' loc d :
  draft_unique d ->
  (forall c p, In c (inventory_counts d) -> draft_at loc c = true ->
               In p (products d) -> ic_product_id c <> product_id p) ->
  serve healthy now (Review loc) d = (ReviewOk [], d) /\
  exists d',
    serve healthy now' (Commit loc) d =
      (CommitOk (List.length (filter (draft_at loc) (inventory_counts d))), d') /\
    filter (draft_at loc) (inventory_counts d') = [] /\
    forall r,
      In r (inventory_counts d) -> draft_at loc r = true ->
      filter (stock_of (ic_product_id r) loc) (stock_levels d') =
        match filter (stock_of (ic_product_id r) loc) (stock_levels d) with
        | [] => [ {| sl_product_id := ic_product_id r; sl_location := loc;
                     on_hand := quantity r; available := quantity r |} ]
        | old => map (set_levels (quantity r)) old
        end.
Proof.
  intros Hu Hno. split.
  - assert (E : join_products (products d)
                  (filter (draft_at loc) (inventory_counts d)) = []).
    { destruct (join_products _ _) as [|[c p] l] eqn:J; [reflexivity|].
      assert (H : In (c, p) (join_products (products d)
                               (filter (draft_at loc) (inventory_counts d))))
        by (rewrite J; now left).
      apply in_join_products_iff in H. destruct H as (Hc & Hp & E).
      apply filter_In in Hc. destruct Hc as [Hc Hat].
      destruct (Hno c p Hc Hat Hp E). }
    unfold serve, handler, review, try_catch, bind, query, ret, select_review.
    simpl. now rewrite E.
  - exists (promote loc d). split; [|split].
    + now rewrite serve_healthy_commit, select_drafts_length.
    + rewrite promote_counts. apply filter_filter_negb.
    + intros r Hin Hat. rewrite promote_stock.
      apply fold_upsert_pair; [now apply drafts_nodup|].
      unfold select_drafts. simpl.
      apply (in_map (fun r => (ic_product_id r, quantity r))).
      apply filter_In. now split.
Qed.

Lemma uncatalogued_drafts_are_committed_unseen_witness :
  let orphaned :=
    {| locations := ["Dock"]; products := [ mkProduct 2 "Gadget" "B2" ];
       inventory_counts := [ mkCount 1 1 "Dock" 5 7 "DRAFT" 100 ];
       stock_levels := []; id_seq := 2 |} in
  serve healthy 0 (Review "Dock") orphaned = (ReviewOk [], orphaned) /\
  serve healthy 1 (Commit "Dock") orphaned =
    (CommitOk 1, {| locations := ["Dock"]; products := [ mkProduct 2 "Gadget" "B2" ];
                    inventory_counts := [];
                    stock_levels := [ mkStock 1 "Dock" 5 5 ]; id_seq := 2 |}).
Proof.
  intros orphaned. split; [|reflexivity].
  apply (@uncatalogued_drafts_are_committed_unseen 0 1 "Dock" orphaned).
  - reflexivity.
  - intros c p [<-|[]] _ [<-|[]]. discriminate.
Defined.

(** ** Tokens *)

Lemma split_not_nil sep s : split sep s <> [].
Proof.
  destruct s as [|c s]; simpl; [discriminate|].
  destruct (Ascii.eqb c sep); [discriminate|].
  destruct (split sep s); discriminate.
Qed.

Lemma split_second_none h :
  nth_error (split space h) 1 = None <-> spaceless h = true.
Proof.
  induction h as [|c h IH]; simpl; [tauto|].
  destruct (Ascii.eqb c space); simpl.
  - pose proof (split_not_nil space h) as N.
    destruct (split space h); [contradiction|]. simpl. split; discriminate.
  - pose proof (split_not_nil space h) as N.
    destruct (split space h) as [|piece pieces]; [contradiction|]. exact IH.
Qed.

Lemma split_word w rest :
  spaceless w = true ->
  split space (w ++ String space rest) = w :: split space rest.
Proof.
  induction w as [|c w IH]; simpl; intros H.
  - reflexivity.
  - apply andb_true_iff in H. destruct H as [Hc Hw].
    apply negb_true_iff in Hc. rewrite Hc, (IH Hw). reflexivity.
Qed.

Lemma split_spaceless w : spaceless w = true -> split space w = [w].
Proof.
  induction w as [|c w IH]; simpl; intros H; [reflexivity|].
  apply andb_true_iff in H. destruct H as [Hc Hw].
  apply negb_true_iff in Hc. rewrite Hc, (IH Hw). reflexivity.
Qed.

Lemma append_space_not_empty w rest :
  String.eqb (w ++ String space rest) "" = false.
Proof. destruct w; reflexivity. Qed.

Lemma header_token_second scheme token :
  spaceless scheme = true -> spaceless token = true ->
  header_token (Some (scheme ++ " " ++ token)) = Some token /\
  forall rest,
    header_token (Some (scheme ++ " " ++ token ++ " " ++ rest)) = Some token.
Proof.
  intros Hs Ht. unfold header_token. split.
  - change (scheme ++ " " ++ token)%string with (scheme ++ String space token)%string.
    rewrite append_space_not_empty, (@split_word scheme _ Hs), (@split_spaceless token Ht).
    reflexivity.
  - intros rest.
    change (scheme ++ " " ++ token ++ " " ++ rest)%string
      with (scheme ++ String space (token ++ String space rest))%string.
    rewrite append_space_not_empty, (@split_word scheme _ Hs), (@split_word token _ Ht).
    reflexivity.
Qed.

(** X20: the middleware answers 401 exactly when the request has no
    Authorization header or the header is one non-empty word without a space;
    in every other case the verdict is the token library's (403 or pass),
    the empty header included. *)
Theorem authenticate_401_iff jwt secret authHeader :
  authenticateToken jwt secret authHeader = SendStatus401 <->
  authHeader = None \/
  exists h, authHeader = Some h /\ h <> "" /\ spaceless h = true.
Proof.
  unfold authenticateToken, header_token.
  destruct authHeader as [h|].
  - destruct (String.eqb h "") eqn:E.
    + apply String.eqb_eq in E. subst h.
      destruct (jwt_verify jwt "" secret); split; try discriminate;
        intros [?|(h & [= <-] & Hne & _)]; try discriminate; now destruct Hne.
    + apply String.eqb_neq in E.
      destruct (nth_error (split space h) 1) as [token|] eqn:N.
      * assert (spaceless h <> true)
          by (intros S; apply split_second_none in S; congruence).
        destruct (jwt_verify jwt token secret); split; try discriminate;
          intros [?|(h' & [= <-] & _ & S)]; try discriminate; contradiction.
      * split; [|reflexivity]. intros _. right. exists h.
        repeat split; [exact E | now apply split_second_none].
  - split; [now left | reflexivity].
Qed.

(** X21: the middleware looks at the second space-separated word only.
    For a header [scheme token], alone or followed by anything after another
    space, the verdict is the library's verdict on [token]: the scheme word
    is never compared with "Bearer", and what follows the token is dropped. *)
Theorem authenticate_reads_second_word jwt secret scheme token :
  spaceless scheme = true -> spaceless token = true ->
  let verdict :=
    match jwt_verify jwt token secret with
    | None => SendStatus403
    | Some user => Next user
    end in
  authenticateToken jwt secret (Some (scheme ++ " " ++ token)) = verdict /\
  forall rest,
    authenticateToken jwt secret (Some (scheme ++ " " ++ token ++ " " ++ rest))
    = verdict.
Proof.
  intros Hs Ht verdict. unfold authenticateToken.
  destruct (header_token_second scheme token Hs Ht) as [H1 H2].
  rewrite H1. split; [reflexivity|]. intros rest. now rewrite H2.
Qed.

Lemma authenticate_reads_second_word_witness :
  authenticateToken toy_jwt "k" (Some "Bearer k.ann") =
    Next (mkClaims 7 "ann") /\
  authenticateToken toy_jwt "k" (Some "Basic k.ann and more") =
    Next (mkClaims 7 "ann") /\
  authenticateToken toy_jwt "k" (Some "Bearer  k.ann") = SendStatus403.
Proof.
  destruct (@authenticate_reads_second_word toy_jwt "k" "Bearer" "k.ann"
              eq_refl eq_refl) as [A _].
  destruct (@authenticate_reads_second_word toy_jwt "k" "Basic" "k.ann"
              eq_refl eq_refl) as [_ B].
  split; [exact A|]. split; [exact (B "and more") | reflexivity].
Defined.

(** ** Login *)

Lemma login_run jwt secret fails users username password d :
  answer (login jwt secret fails users username password) d =
    (Some
       (if fails 0%nat then Login500 "Login error"
        else
          match filter (credentials_match username password) users with
          | u :: _ =>
              LoginOk (mkInfo (u_user_id u) (u_full_name u) (u_role u))
                (jwt_sign jwt (mkClaims (u_user_id u) username) secret)
          | [] => Login401 "Invalid credentials"
          end), d).
Proof.
  unfold answer, login, try_catch, bind, query, ret, select_user, fresh. simpl.
  destruct (fails 0%nat); [reflexivity|].
  fold (credentials_match username password).
  destruct (filter (credentials_match username password) users); reflexivity.
Qed.

(** X22: login never writes and always answers.  It answers success only
    for a user row whose [username] and [password] equal the ones sent,
    character for character, with that row's id, name and role and a token
    signed over the row's id and the user name sent; with no such row it
    answers 401 "Invalid credentials"; when its query fails, 500 "Login
    error". *)
Theorem login_checks_credentials jwt secret fails users username password d :
  exists resp,
    answer (login jwt secret fails users username password) d = (Some resp, d) /\
    (forall user token,
        resp = LoginOk user token ->
        exists u, In u users /\
                  u_username u = username /\ u_password u = password /\
                  user = mkInfo (u_user_id u) (u_full_name u) (u_role u) /\
                  token = jwt_sign jwt (mkClaims (u_user_id u) username) secret) /\
    (fails 0%nat = false ->
     (forall u, In u users ->
                ~ (u_username u = username /\ u_password u = password)) ->
     resp = Login401 "Invalid credentials") /\
    (fails 0%nat = true -> resp = Login500 "Login error").
Proof.
  eexists. split; [apply login_run|]. split; [|split].
  - intros user token H. destruct (fails 0%nat); [discriminate|].
    destruct (filter (credentials_match username password) users)
      as [|u l] eqn:E; [discriminate|].
    injection H as <- <-.
    assert (Hu : In u (filter (credentials_match username password) users))
      by (rewrite E; now left).
    apply filter_In in Hu. destruct Hu as [Hu Hm].
    unfold credentials_match in Hm. apply andb_true_iff in Hm.
    destruct Hm as [Hn Hp]. apply String.eqb_eq in Hn, Hp.
    exists u. auto.
  - intros -> Hno.
    destruct (filter (credentials_match username password) users)
      as [|u l] eqn:E; [reflexivity|].
    assert (Hu : In u (filter (credentials_match username password) users))
      by (rewrite E; now left).
    apply filter_In in Hu. destruct Hu as [Hu Hm].
    unfold credentials_match in Hm. apply andb_true_iff in Hm.
    destruct Hm as [Hn Hp]. apply String.eqb_eq in Hn, Hp.
    destruct (Hno u Hu (conj Hn Hp)).
  - intros ->. reflexivity.
Qed.

(** X23: a token from login opens the guarded routes.  If login answered
    success with [token], the library verifies under a secret what it signed
    under it, and the token has no space, then any request sent with header
    "Bearer " followed by the token is served as the user logged in, with the
    response and the effect of the handler itself. *)
Theorem login_token_is_accepted
  jwt env fails users username password d user token fails' now r d' :
  answer (login jwt (JWT_SECRET env) fails users username password) d =
    (Some (LoginOk user token), d) ->
  jwt_verify jwt
    (jwt_sign jwt (mkClaims (info_user_id user) username) (JWT_SECRET env))
    (JWT_SECRET env) = Some (mkClaims (info_user_id user) username) ->
  spaceless token = true ->
  route jwt (JWT_SECRET env) (Some ("Bearer " ++ token))
        (serve fails' now r) d' =
    (Answered (mkClaims (info_user_id user) username)
              (fst (serve fails' now r d')),
     snd (serve fails' now r d')).
Proof.
  intros Hl Hv Hs. rewrite login_run in Hl.
  assert (Ht : token =
               jwt_sign jwt (mkClaims (info_user_id user) username) (JWT_SECRET env)).
  { destruct (fails 0%nat); [discriminate|].
    destruct (filter _ users); [discriminate|]. now injection Hl as <- <-. }
  unfold route, authenticateToken.
  destruct (@header_token_second "Bearer" token eq_refl Hs) as [H1 _].
  change ("Bearer " ++ token)%string with ("Bearer" ++ " " ++ token)%string.
  rewrite H1, Ht, Hv. now destruct (serve fails' now r d').
Qed.

Lemma login_token_is_accepted_witness :
  answer (login toy_jwt (JWT_SECRET None) healthy staff "ann" "s3cret") dock_db =
    (Some (LoginOk (mkInfo 7 "Ann Lee" "counter") "default_secret.ann"), dock_db) /\
  route toy_jwt (JWT_SECRET None) (Some "Bearer default_secret.ann")
        (serve healthy 0 (Commit "Dock")) dock_db =
    (Answered (mkClaims 7 "ann") (CommitOk 2), promote "Dock" dock_db).
Proof.
  assert (L : answer (login toy_jwt (JWT_SECRET None) healthy staff "ann" "s3cret")
                dock_db =
              (Some (LoginOk (mkInfo 7 "Ann Lee" "counter") "default_secret.ann"),
               dock_db)) by reflexivity.
  split; [exact L|].
  apply (@login_token_is_accepted toy_jwt None healthy staff "ann" "s3cret"
           dock_db _ _ healthy 0 (Commit "Dock") dock_db L eq_refl eq_refl).
Defined.

(** ** The location list *)

Lemma insert_asc_perm collate x l : Permutation (x :: l) (insert_asc collate x l).
Proof.
  induction l as [|y l IH]; simpl; [apply Permutation_refl|].
  destruct (collate x y); [apply Permutation_refl|].
  eapply Permutation_trans; [apply perm_swap|]. now apply perm_skip.
Qed.

Lemma insert_asc_sorted collate x l :
  (forall a b, collate a b = true \/ collate b a = true) ->
  Sorted (ascending collate) l -> Sorted (ascending collate) (insert_asc collate x l).
Proof.
  intros Htot. induction l as [|y l IH]; intros Hs; simpl.
  - repeat constructor.
  - inversion Hs as [|? ? Hs' Hhd]; subst.
    destruct (collate x y) eqn:E.
    + constructor; [exact Hs|]. constructor. exact E.
    + constructor; [now apply IH|].
      assert (Hyx : ascending collate y x).
      { destruct (Htot x y) as [H|H]; [congruence | exact H]. }
      destruct l as [|z l]; simpl.
      * constructor. exact Hyx.
      * destruct (collate x z); constructor; [exact Hyx|].
        now inversion Hhd.
Qed.

(** X24: the location list never writes; it answers 500 "Fetch error" when
    its query fails, and otherwise the names of the directory, each as often
    as the table holds it, in ascending order of the database's collation
    (any order that compares every two names). *)
Theorem locations_are_listed_in_order collate fails d :
  (forall a b, collate a b = true \/ collate b a = true) ->
  exists names,
    answer (get_locations collate fails) d =
      (Some (if fails 0%nat then Locations500 "Fetch error"
             else LocationsOk names), d) /\
    Permutation (locations d) names /\
    Sorted (ascending collate) names.
Proof.
  intros Htot. exists (fst (select_locations collate d)). split; [|split].
  - unfold answer, get_locations, try_catch, bind, query, ret, fresh. simpl.
    destruct (fails 0%nat); reflexivity.
  - unfold select_locations. simpl.
    induction (locations d) as [|x l IH]; simpl; [constructor|].
    eapply Permutation_trans; [apply perm_skip, IH | apply insert_asc_perm].
  - unfold select_locations. simpl.
    induction (locations d) as [|x l IH]; simpl; [constructor|].
    now apply insert_asc_sorted.
Qed.

Lemma locations_are_listed_in_order_witness :
  (forall a b, String.leb a b = true \/ String.leb b a = true) /\
  fst (answer (get_locations String.leb healthy) yard_db) =
    Some (LocationsOk ["Aisle 1"; "Aisle 2"; "Dock"; "Yard"]) /\
  exists names,
    answer (get_locations String.leb healthy) yard_db =
      (Some (LocationsOk names), yard_db) /\
    Permutation (locations yard_db) names /\
    Sorted (ascending String.leb) names.
Proof.
  split; [exact String.leb_total|]. split; [reflexivity|].
  exact (@locations_are_listed_in_order String.leb healthy yard_db
           String.leb_total).
Defined.

Lemma login_checks_credentials_witness :
  answer (login toy_jwt "k" healthy staff "bo" "hunter2") dock_db =
    (Some (LoginOk (mkInfo 8 "Bo Diaz" "reviewer") "k.bo"), dock_db) /\
  answer (login toy_jwt "k" healthy staff "bo" "Hunter2") dock_db =
    (Some (Login401 "Invalid credentials"), dock_db).
Proof.
  split; [reflexivity|].
  destruct (login_checks_credentials toy_jwt "k" healthy staff "bo" "Hunter2" dock_db)
    as (resp & A & _ & N & _).
  rewrite A. do 2 f_equal. apply N; [reflexivity|].
  intros u [<-|[<-|[]]] [Hn Hp]; discriminate.
Defined.

(** ** Responses *)

(** X25: scans, reviews and updates always send a response.  The commit
    handler alone can leave a request unanswered, and only when it could not
    get a connection or when, a step having failed, the ROLLBACK failed as
    well. *)
Theorem only_commit_can_go_unanswered fails now r d :
  fst (serve fails now r d) = NoResponse ->
  exists loc, r = Commit loc /\ unanswered fails.
Proof.
  destruct r as [barcode loc uid|loc|i q|loc].
  - rewrite serve_scan. destruct (fails 0%nat); [discriminate|].
    destruct (fst (select_product_by_sku barcode d)); [discriminate|].
    destruct (fails 1%nat); [discriminate|].
    destruct (fails 2%nat); discriminate.
  - unfold serve, handler, review, try_catch, bind, query, ret. simpl.
    destruct (fails 0%nat); discriminate.
  - rewrite serve_update. destruct (fails 0%nat); discriminate.
  - destruct (serve_commit fails now loc d) as [[H _]|(r & H & [->|[-> U]] & _)];
      rewrite H; try discriminate.
    intros _. exists loc. now split.
Qed.

Lemma only_commit_can_go_unanswered_witness :
  serve (fun k => Nat.leb 4 k) 0 (Commit "Dock") dock_db = (NoResponse, dock_db) /\
  unanswered (fun k => Nat.leb 4 k).
Proof.
  assert (S : fst (serve (fun k => Nat.leb 4 k) 0 (Commit "Dock") dock_db) =
              NoResponse) by reflexivity.
  split; [reflexivity|].
  destruct (only_commit_can_go_unanswered _ _ _ _ S) as (loc & _ & U).
  exact U.
Defined.

Lemma length_filter_split A (f : A -> bool) (l : list A) :
  List.length l =
  (List.length (filter (fun x => negb (f x)) l) + List.length (filter f l))%nat.
Proof.
  induction l as [|x l IH]; simpl; [reflexivity|].
  destruct (f x); simpl; lia.
Qed.

(** X26: the count a successful commit reports is the number of rows it
    removed from [inventory_counts]. *)
Theorem commit_count_is_rows_removed fails now loc d c d' :
  serve fails now (Commit loc) d = (CommitOk c, d') ->
  List.length (inventory_counts d) =
  (List.length (inventory_counts d') + c)%nat.
Proof.
  intros Hs.
  destruct (serve_commit fails now loc d) as [[H _]|(r & H & [->|[-> _]] & _)];
    rewrite H in Hs; try discriminate.
  injection Hs as <- <-.
  rewrite promote_counts, length_map. apply length_filter_split.
Qed.

Lemma commit_count_is_rows_removed_witness :
  List.length (inventory_counts dock_db) =
  (List.length (inventory_counts (promote "Dock" dock_db)) + 2)%nat.
Proof.
  apply (@commit_count_is_rows_removed healthy 0 "Dock" dock_db 2).
  reflexivity.
Defined.

(** X27: when a step of the commit fails and the request is still answered
    (there was a connection, and the ROLLBACK of the catch block was not
    rejected), the answer is 500 "Commit failed" and it is sent after the
    ROLLBACK: the connection then holds no open transaction, so that nothing
    the loop did before the failure survives, and the durable database is as
    it was. *)
Theorem commit_rolls_back_before_answering fails loc d :
  faulty fails 0 (commit_steps loc d) ->
  ~ unanswered fails ->
  exists w',
    commit fails loc (fresh d) = (Returned (Status500 "Commit failed"), w') /\
    txn w' = None /\
    store w' = d.
Proof.
  intros F U. pose proof (commit_run fails loc d) as H. unfold commit_post in H.
  destruct (commit fails loc (fresh d)) as [[r|] w'].
  - destruct r; try contradiction.
    + destruct H as (_ & _ & C & _). destruct (clean_not_faulty C F).
    + destruct H as (-> & S & _ & T). exists w'. auto.
  - destruct H as (_ & _ & U'). contradiction.
Qed.

Lemma commit_rolls_back_before_answering_witness :
  faulty (fails_at 5) 0 (commit_steps "Dock" dock_db) /\
  ~ unanswered (fails_at 5) /\
  commit (fails_at 5) "Dock" (fresh dock_db) =
    (Returned (Status500 "Commit failed"),
     {| store := dock_db; txn := None; issued := 7 |}).
Proof.
  assert (F : faulty (fails_at 5) 0 (commit_steps "Dock" dock_db)).
  { exists 5%nat. vm_compute. repeat split; lia. }
  assert (U : ~ unanswered (fails_at 5)).
  { intros [H|(k & H1 & H2)]; [discriminate|].
    unfold fails_at in *. apply Nat.eqb_eq in H1, H2. lia. }
  split; [exact F|]. split; [exact U|].
  destruct (@commit_rolls_back_before_answering (fails_at 5) "Dock" dock_db F U)
    as (w' & H & _ & _).
  rewrite H. f_equal.
  change w' with (snd (Returned (Status500 "Commit failed"), w')).
  rewrite <- H. reflexivity.
Defined.
